(** * ipv6_in_real_life.data_structures: resolution and aggregation engine

    A shallow embedding of [src/ipv6_in_real_life/data_structures.py].

    - Python objects mutated in place ([Host], [Entity], [Source]) are values
      threaded through a state-and-exception monad [M]; the state of a method
      is the pair of its receiver ([self]) and the process-wide [World]
      (metrics counters, log, clock).
    - [Optional[bool]] is [option bool]; truthiness and the short-circuit
      [and] follow Python.
    - A [dict] is an association list in insertion order, as Python
      dictionaries are.
    - A Python [float] is the rational it denotes; [/] and the [.0%] format
      round as IEEE-754 binary64 does (nearest, ties to even). *)

From Stdlib Require Import String Ascii List Bool ZArith NArith QArith Qround Qabs Qpower Lia Lqa.
From Stdlib Require Import DecimalString Permutation.
Import ListNotations.

Set Implicit Arguments.

Local Open Scope string_scope.
Local Open Scope list_scope.

(** ** Python values, exceptions, truthiness *)

Inductive exn : Type :=
| DNSError                          (* aiodns.error.DNSError *)
| KeyError (key : string)
| ZeroDivisionError
| OverflowError
| AttributeError (attr : string).

Inductive result (A : Type) : Type :=
| Ok (a : A)
| Raise (e : exn).

Arguments Ok {A} a.
Arguments Raise {A} e.

Definition is_DNSError (e : exn) : bool :=
  match e with DNSError => true | _ => false end.

(** Truth value of an [Optional[bool]]: [None] and [False] are falsy. *)
Definition truthy (v : option bool) : bool :=
  match v with Some true => true | _ => false end.

(** [x and y] where [y] is a [bool]: the left operand itself when it is
    falsy, the right operand otherwise. *)
Definition py_and (x : option bool) (y : bool) : option bool :=
  if truthy x then Some y else x.

(** [str.startswith]. *)
Definition startswith (s pre : string) : bool := String.prefix pre s.

(** ** The world outside the data structures *)

(** Modelled from the spec: the metrics sink ([observability.Metrics], not
    part of this module) is four monotonically increasing counters, one per
    query type and outcome; each [count_*] call adds one to its counter. *)
Record Metrics : Type := mkMetrics {
  ipv4_resolution_success : N;
  ipv4_resolution_failure : N;
  ipv6_resolution_success : N;
  ipv6_resolution_failure : N
}.

Inductive log_record : Type :=
| LogWarning (msg : string)
| LogDebug (host : string) (all_results : list string).

(** Time is counted in ticks. It passes while a task is suspended on the
    network and not otherwise: every answer that an awaited query receives,
    a result set or a failure, moves the clock one tick forward ([tick],
    used by [query] below), so that a reading of the clock tells how many
    answers had arrived when it was taken. *)
Record World : Type := mkWorld {
  metrics : Metrics;
  log : list log_record;       (* records emitted through _LOGGER, oldest first *)
  clock : Z                    (* what datetime.datetime.now() reads *)
}.

Definition with_metrics (f : Metrics -> Metrics) (w : World) : World :=
  mkWorld (f (metrics w)) (log w) (clock w).

Definition with_log (r : log_record) (w : World) : World :=
  mkWorld (metrics w) (log w ++ [r]) (clock w).

Definition tick (w : World) : World :=
  mkWorld (metrics w) (log w) (clock w + 1)%Z.

(** ** The resolver client *)

Inductive record_type : Type := A | AAAA.

(** [aiodns.DNSResolver.query]: a result set (the [host] attribute of each
    returned record, in order) or a failure with [aiodns.error.DNSError]. *)
Inductive answer : Type :=
| Results (hosts : list string)
| Failure.

(** The answer is a function of the name and of the record type: the
    client is stateless per request, and neither caching nor retries are
    modelled. *)
Record DNSResolver : Type := mkResolver {
  lookup : string -> record_type -> answer
}.

(** ** State and exception monad

    [M S X]: a computation over a state [S] that returns an [X] or raises;
    the state survives an exception, as mutations of Python objects do. *)

Definition M (S X : Type) : Type := S -> result X * S.

Definition ret {S X} (x : X) : M S X := fun s => (Ok x, s).

Definition bind {S X Y} (m : M S X) (k : X -> M S Y) : M S Y :=
  fun s => match m s with
           | (Ok x, s1) => k x s1
           | (Raise e, s1) => (Raise e, s1)
           end.

Definition raise {S X} (e : exn) : M S X := fun s => (Raise e, s).

Definition gets {S X} (f : S -> X) : M S X := fun s => (Ok (f s), s).

Definition modify {S} (f : S -> S) : M S unit := fun s => (Ok tt, f s).

Notation "x <- m ;; k" := (bind m (fun x => k))
  (at level 61, m at next level, right associativity).
Notation "m ;;; k" := (bind m (fun _ => k))
  (at level 61, right associativity).

(** [try: body / except <catches>: handler / else: orelse]. An exception of
    the body that the clause does not name, and any exception of the handler
    or of the else branch, propagates. *)
Definition try_except_else {S X Y} (body : M S X) (catches : exn -> bool)
    (handler : M S Y) (orelse : X -> M S Y) : M S Y :=
  fun s => match body s with
           | (Ok x, s1) => orelse x s1
           | (Raise e, s1) => if catches e then handler s1 else (Raise e, s1)
           end.

(** A method's state: its receiver and the world. *)
Definition modify_self {T} (f : T -> T) : M (T * World) unit :=
  modify (fun s => (f (fst s), snd s)).

Definition modify_world {T} (f : World -> World) : M (T * World) unit :=
  modify (fun s => (fst s, f (snd s))).

(** Run a method of an object held in a field of the receiver. *)
Definition zoom {T U X} (get : T -> U) (set : U -> T -> T)
    (m : M (U * World) X) : M (T * World) X :=
  fun s => let '(r, (u, w)) := m (get (fst s), snd s) in (r, (set u (fst s), w)).

(** [await asyncio.gather] of one task [m x] per object [x] of a sequence
    held by the receiver. The tasks touch disjoint objects and share only
    the world; they are run here one after the other in argument order, the
    first exception being the one that propagates. The section on the event
    loop below lets the answers arrive in any order instead. *)
Fixpoint gather_from {T} (m : M (T * World) unit) (xs : list T) (w : World)
    : result unit * (list T * World) :=
  match xs with
  | [] => (Ok tt, ([], w))
  | x :: rest =>
      match m (x, w) with
      | (Ok _, (x', w1)) =>
          let '(r, (rest', w2)) := gather_from m rest w1 in (r, (x' :: rest', w2))
      | (Raise e, (x', w1)) => (Raise e, (x' :: rest, w1))
      end
  end.

Definition gather {T} (m : M (T * World) unit) : M (list T * World) unit :=
  fun s => gather_from m (fst s) (snd s).

(** await resolver.query(name, rtype): the task is suspended until the
    answer arrives, which takes a tick of the clock; the answer is then
    returned or raised. *)
Definition query {T} (resolver : DNSResolver) (name : string) (rtype : record_type)
    : M (T * World) (list string) :=
  modify_world tick ;;;
  match lookup resolver name rtype with
  | Results hosts => ret hosts
  | Failure => raise DNSError
  end.

Definition logger_warning {T} (msg : string) : M (T * World) unit :=
  modify_world (with_log (LogWarning msg)).

Definition logger_debug {T} (host : string) (all_results : list string)
    : M (T * World) unit :=
  modify_world (with_log (LogDebug host all_results)).

Definition count_ipv4_resolution_success {T} : M (T * World) unit :=
  modify_world (with_metrics (fun m =>
    mkMetrics (ipv4_resolution_success m + 1)%N (ipv4_resolution_failure m)
              (ipv6_resolution_success m) (ipv6_resolution_failure m))).

Definition count_ipv4_resolution_failure {T} : M (T * World) unit :=
  modify_world (with_metrics (fun m =>
    mkMetrics (ipv4_resolution_success m) (ipv4_resolution_failure m + 1)%N
              (ipv6_resolution_success m) (ipv6_resolution_failure m))).

Definition count_ipv6_resolution_success {T} : M (T * World) unit :=
  modify_world (with_metrics (fun m =>
    mkMetrics (ipv4_resolution_success m) (ipv4_resolution_failure m)
              (ipv6_resolution_success m + 1)%N (ipv6_resolution_failure m))).

Definition count_ipv6_resolution_failure {T} : M (T * World) unit :=
  modify_world (with_metrics (fun m =>
    mkMetrics (ipv4_resolution_success m) (ipv4_resolution_failure m)
              (ipv6_resolution_success m) (ipv6_resolution_failure m + 1)%N)).

(** ** Host *)

Module Host.

Record t : Type := mk {
  name : string;
  has_ipv4_address : option bool;
  has_ipv6_address : option bool
}.

(** Host(name) *)
Definition new (name : string) : t := mk name None None.

Definition set_has_ipv4_address (v : option bool) (self : t) : t :=
  mk (name self) v (has_ipv6_address self).

Definition set_has_ipv6_address (v : option bool) (self : t) : t :=
  mk (name self) (has_ipv4_address self) v.

(** The first [try] statement of [resolve]: the A query. *)
Definition resolve_ipv4 (resolver : DNSResolver) : M (t * World) unit :=
  try_except_else
    (self_name <- gets (fun s => name (fst s)) ;;
     query resolver self_name A ;;;
     modify_self (set_has_ipv4_address (Some true)))
    is_DNSError
    (self_name <- gets (fun s => name (fst s)) ;;
     logger_warning (self_name ++ " IPv4 DNS record not found either") ;;;
     count_ipv4_resolution_failure ;;;
     modify_self (set_has_ipv4_address (Some false)))
    (fun _ => count_ipv4_resolution_success).

(** The second [try] statement of [resolve]: the AAAA query and the
    filter on its results. *)
Definition resolve_ipv6 (resolver : DNSResolver) : M (t * World) unit :=
  try_except_else
    (self_name <- gets (fun s => name (fst s)) ;;
     all_results <- query resolver self_name AAAA ;;
     logger_debug self_name all_results ;;;
     ret all_results)
    is_DNSError
    (modify_self (set_has_ipv6_address (Some false)) ;;;
     count_ipv6_resolution_failure)
    (fun all_results =>
       count_ipv6_resolution_success ;;;
       let valid_ipv6 :=
         filter (fun host => negb (startswith host "::ffff:")) all_results in
       modify_self (set_has_ipv6_address
                      (Some (match valid_ipv6 with [] => false | _ => true end)))).

Definition resolve (resolver : DNSResolver) : M (t * World) unit :=
  resolve_ipv4 resolver ;;; resolve_ipv6 resolver.

End Host.

(** ** Floats

    A finite Python [float] is represented by the rational it denotes (the
    sign of a zero is not represented; the quantities divided and formatted
    in this module are counts, hence non-negative). Arithmetic rounds to the
    nearest binary64 value, ties to the even significand. *)

Definition pow2 (e : Z) : Q := Qpower 2 e.

(** floor (log2 x), for 0 < x *)
Definition ilog2 (x : Q) : Z :=
  let k := (Z.log2 (Qnum x) - Z.log2 (Zpos (Qden x)))%Z in
  if Qle_bool (pow2 k) x then k else (k - 1)%Z.

(** The integer nearest to [x], an exact half going to the even neighbour. *)
Definition round_half_even (x : Q) : Z :=
  let f := Qfloor x in
  match Qcompare (x - inject_Z f) (1 # 2) with
  | Lt => f
  | Gt => (f + 1)%Z
  | Eq => if Z.even f then f else (f + 1)%Z
  end.

(** The binary64 value nearest to [x], for 0 < x: a significand of 53 bits
    at the exponent of [x], or at the least exponent -1074 (subnormals). *)
Definition b64_nearest_pos (x : Q) : Q :=
  let e := Z.max (ilog2 x - 52) (-1074) in
  inject_Z (round_half_even (x / pow2 e)) * pow2 e.

Definition b64_nearest (x : Q) : Q :=
  match Qcompare x 0 with
  | Eq => 0
  | Gt => b64_nearest_pos x
  | Lt => - b64_nearest_pos (- x)
  end.

(** [a / b] on Python integers: the correctly rounded quotient. *)
Definition truediv (a b : Z) : result Q :=
  if (b =? 0)%Z then Raise ZeroDivisionError
  else
    let r := b64_nearest (inject_Z a / inject_Z b) in
    if Qle_bool (pow2 1024) (Qabs r) then Raise OverflowError else Ok r.

(** str(n) for an integer *)
Definition str_of_Z (n : Z) : string := NilZero.string_of_int (Z.to_int n).

(** [f"{x:.0%}"]: the float is multiplied by 100 (a float product), then
    written in fixed notation with no digit after the point, correctly
    rounded, and followed by a percent sign. *)
Definition format_percent0 (x : Q) : string :=
  let v := b64_nearest (x * 100) in
  if Qle_bool (pow2 1024) v then "inf%"
  else if Qle_bool v (- pow2 1024) then "-inf%"
  else
    match Qcompare v 0 with
    | Lt => "-" ++ str_of_Z (round_half_even (- v)) ++ "%"
    | _ => str_of_Z (round_half_even v) ++ "%"
    end.

(** ** dict: association list in insertion order *)

Definition dict (V : Type) : Type := list (string * V).

(** d.get(k) *)
Fixpoint dict_get {V} (k : string) (d : dict V) : option V :=
  match d with
  | [] => None
  | (k', v) :: rest => if String.eqb k k' then Some v else dict_get k rest
  end.

(** k in d *)
Definition dict_contains {V} (k : string) (d : dict V) : bool :=
  match dict_get k d with Some _ => true | None => false end.

(** d[k] = v: the value of an existing key is replaced where it stands, a
    new key goes last. *)
Fixpoint dict_set {V} (k : string) (v : V) (d : dict V) : dict V :=
  match d with
  | [] => [(k, v)]
  | (k', v') :: rest =>
      if String.eqb k k' then (k', v) :: rest else (k', v') :: dict_set k v rest
  end.

Definition dict_keys {V} (d : dict V) : list string := map fst d.

Definition dict_values {V} (d : dict V) : list V := map snd d.

(** [asyncio.gather] of one task per value of a dict held by the receiver. *)
Definition gather_values {V} (m : M (V * World) unit) : M (dict V * World) unit :=
  gather (zoom (fun kv : string * V => snd kv) (fun v kv => (fst kv, v)) m).

(** ** Entity *)

Module Entity.

Record t : Type := mk {
  country : string;
  category : string;
  name : string;
  main_host : Host.t;
  additional_hosts : list Host.t;
  ipv6_ready : option bool
}.

(** A raw record, [Dict[str, Any]], as far as [from_json] reads it: the
    value under each key, [None] when the key is absent. The values are
    typed as records of the input format have them: a string under
    "country", "category", "name" and "main_host", a list of strings under
    "additional_hosts". A record that holds something else there (a null
    or a number under "additional_hosts", over which the generator of
    [from_json] cannot iterate) is outside this type. *)
Record json : Type := mk_json {
  json_country : option string;
  json_category : option string;
  json_name : option string;
  json_main_host : option string;
  json_additional_hosts : option (list string)
}.

(** json_entity[key] *)
Definition getitem {X} (key : string) (field : option X) : result X :=
  match field with
  | Some v => Ok v
  | None => Raise (KeyError key)
  end.

(** json_entity.get(key, default) *)
Definition get {X} (field : option X) (default : X) : X :=
  match field with
  | Some v => v
  | None => default
  end.

Definition from_json (json_entity : json) : result t :=
  match getitem "main_host" (json_main_host json_entity) with
  | Raise e => Raise e
  | Ok main_host_name =>
      let main_host := Host.new main_host_name in
      match getitem "country" (json_country json_entity) with
      | Raise e => Raise e
      | Ok country =>
          match getitem "category" (json_category json_entity) with
          | Raise e => Raise e
          | Ok category =>
              Ok (mk country category
                     (get (json_name json_entity) (Host.name main_host))
                     main_host
                     (map Host.new (get (json_additional_hosts json_entity) []))
                     None)
          end
      end
  end.

Definition set_main_host (h : Host.t) (self : t) : t :=
  mk (country self) (category self) (name self) h (additional_hosts self)
     (ipv6_ready self).

Definition set_additional_hosts (hs : list Host.t) (self : t) : t :=
  mk (country self) (category self) (name self) (main_host self) hs
     (ipv6_ready self).

Definition set_ipv6_ready (v : option bool) (self : t) : t :=
  mk (country self) (category self) (name self) (main_host self)
     (additional_hosts self) v.

Definition resolve (resolver : DNSResolver) : M (t * World) unit :=
  zoom main_host set_main_host (Host.resolve resolver) ;;;
  zoom additional_hosts set_additional_hosts (gather (Host.resolve resolver)) ;;;
  modify_self (fun self =>
    set_ipv6_ready
      (py_and (Host.has_ipv6_address (main_host self))
              (forallb (fun host => truthy (Host.has_ipv6_address host))
                       (additional_hosts self)))
      self).

End Entity.

(** ** Category *)

Module Category.

Record t : Type := mk {
  category : string;
  entities : list Entity.t
}.

(** Category(category) *)
Definition new (category : string) : t := mk category [].

Definition register (entity : Entity.t) (self : t) : t :=
  mk (category self) (entities self ++ [entity]).

(** sum(1 for entity in self.entities if entity.ipv6_ready) *)
Definition ready_count (self : t) : Z :=
  fold_left Z.add
    (map (fun _ => 1%Z)
         (filter (fun entity => truthy (Entity.ipv6_ready entity)) (entities self)))
    0%Z.

Definition total_count (self : t) : Z := Z.of_nat (length (entities self)).

Definition ready_percentage (self : t) : result string :=
  match truediv (ready_count self) (total_count self) with
  | Raise e => Raise e
  | Ok ready_ratio => Ok (format_percent0 ready_ratio)
  end.

Definition set_entities (es : list Entity.t) (self : t) : t :=
  mk (category self) es.

End Category.

(** ** CountryData *)

(** [pycountry.countries.get(alpha_2=code)], an external database: the
    record of the country, of which only the name is read; [None] when the
    code is not known; or an exception of its own. *)
Record Country : Type := mkCountry { country_record_name : string }.

Definition pycountry_countries : Type := string -> result (option Country).

Module CountryData.

Record t : Type := mk {
  country_code : string;
  categories : dict Category.t
}.

(** CountryData(country_code) *)
Definition new (country_code : string) : t := mk country_code [].

Definition country_name (countries_get : pycountry_countries) (self : t)
    : result string :=
  if String.eqb (country_code self) "xx" then Ok "Validation Test"
  else
    match countries_get (country_code self) with
    | Raise e => Raise e
    | Ok (Some c) => Ok (country_record_name c)
    | Ok None => Raise (AttributeError "name")    (* None.name *)
    end.

(** The entities registered under a category tag. *)
Definition entities_in (category : string) (self : t) : list Entity.t :=
  match dict_get category (categories self) with
  | None => []
  | Some cat => Category.entities cat
  end.

Definition set_categories (cs : dict Category.t) (self : t) : t :=
  mk (country_code self) cs.

(** [if key not in categories: categories[key] = Category(key)], then
    [categories[key].register(entity)]: a category created here goes last
    in the dict, an existing one is updated where it stands. *)
Definition register (entity : Entity.t) (self : t) : t :=
  let key := Entity.category entity in
  let found :=
    match dict_get key (categories self) with
    | Some c => c
    | None => Category.new key
    end in
  set_categories (dict_set key (Category.register entity found) (categories self)) self.

End CountryData.

(** ** Source *)

Module Source.

Record t : Type := mk {
  countries_data : dict CountryData.t;
  last_resolved : option Z
}.

Definition new : t := mk [] None.

Definition set_countries_data (d : dict CountryData.t) (self : t) : t :=
  mk d (last_resolved self).

Definition set_last_resolved (v : option Z) (self : t) : t :=
  mk (countries_data self) v.

(** The body of the loop of [extend_from_json], once the entity is built:
    [if key not in countries_data: countries_data[key] = CountryData(key)],
    then [countries_data[key].register(entity)]. *)
Definition register (entity : Entity.t) (self : t) : t :=
  let key := Entity.country entity in
  let found :=
    match dict_get key (countries_data self) with
    | Some c => c
    | None => CountryData.new key
    end in
  set_countries_data
    (dict_set key (CountryData.register entity found) (countries_data self)) self.

Fixpoint extend_from_json (json_entities : list Entity.json) : M t unit :=
  match json_entities with
  | [] => ret tt
  | json_entity :: rest =>
      match Entity.from_json json_entity with
      | Raise e => raise e
      | Ok entity => modify (register entity) ;;; extend_from_json rest
      end
  end.

(** The tasks of [resolve_all]: one per entity, over the countries, their
    categories and their entities in iteration order. *)
Definition resolve_entities (resolver : DNSResolver) : M (t * World) unit :=
  zoom countries_data set_countries_data
    (gather_values
       (zoom CountryData.categories CountryData.set_categories
          (gather_values
             (zoom Category.entities Category.set_entities
                (gather (Entity.resolve resolver)))))).

(** [resolver] is the instance that [aiodns.DNSResolver()] constructs. *)
Definition resolve_all (resolver : DNSResolver) : M (t * World) unit :=
  resolve_entities resolver ;;;
  now <- gets (fun s => clock (snd s)) ;;
  modify_self (set_last_resolved (Some now)).

(** The entities of the tree in iteration order. *)
Definition all_entities (self : t) : list Entity.t :=
  flat_map (fun country =>
              flat_map Category.entities (dict_values (CountryData.categories country)))
           (dict_values (countries_data self)).

(** The entities registered under a country code and a category tag. *)
Definition entities_at (country category : string) (self : t) : list Entity.t :=
  match dict_get country (countries_data self) with
  | None => []
  | Some c => CountryData.entities_in category c
  end.

End Source.

(** ** Closed forms used in the statements *)

(** What [Host.resolve] leaves in [has_ipv4_address] for an answer to A. *)
Definition ipv4_verdict (a : answer) : bool :=
  match a with Results _ => true | Failure => false end.

(** What [Host.resolve] leaves in [has_ipv6_address] for an answer to AAAA. *)
Definition ipv6_verdict (a : answer) : bool :=
  match a with
  | Results all_results =>
      existsb (fun host => negb (startswith host "::ffff:")) all_results
  | Failure => false
  end.

Definition host_after (resolver : DNSResolver) (h : Host.t) : Host.t :=
  Host.mk (Host.name h)
          (Some (ipv4_verdict (lookup resolver (Host.name h) A)))
          (Some (ipv6_verdict (lookup resolver (Host.name h) AAAA))).

(** The world after the first [try] statement of [Host.resolve]: the answer
    to the A query has arrived (one tick), then the log and the counters
    are written. *)
Definition world_after_ipv4 (resolver : DNSResolver) (h : Host.t) (w : World) : World :=
  match lookup resolver (Host.name h) A with
  | Results _ =>
      with_metrics (fun m =>
        mkMetrics (ipv4_resolution_success m + 1)%N (ipv4_resolution_failure m)
                  (ipv6_resolution_success m) (ipv6_resolution_failure m)) (tick w)
  | Failure =>
      with_metrics (fun m =>
        mkMetrics (ipv4_resolution_success m) (ipv4_resolution_failure m + 1)%N
                  (ipv6_resolution_success m) (ipv6_resolution_failure m))
        (with_log (LogWarning (Host.name h ++ " IPv4 DNS record not found either"))
                  (tick w))
  end.

(** The same for the second [try] statement and the AAAA query. *)
Definition world_after_ipv6 (resolver : DNSResolver) (h : Host.t) (w : World) : World :=
  match lookup resolver (Host.name h) AAAA with
  | Results all_results =>
      with_metrics (fun m =>
        mkMetrics (ipv4_resolution_success m) (ipv4_resolution_failure m)
                  (ipv6_resolution_success m + 1)%N (ipv6_resolution_failure m))
        (with_log (LogDebug (Host.name h) all_results) (tick w))
  | Failure =>
      with_metrics (fun m =>
        mkMetrics (ipv4_resolution_success m) (ipv4_resolution_failure m)
                  (ipv6_resolution_success m) (ipv6_resolution_failure m + 1)%N) (tick w)
  end.

Definition world_after_host (resolver : DNSResolver) (h : Host.t) (w : World) : World :=
  world_after_ipv6 resolver h (world_after_ipv4 resolver h w).

Definition is_definite (v : option bool) : bool :=
  match v with Some _ => true | None => false end.

Definition host_resolved (h : Host.t) : bool :=
  is_definite (Host.has_ipv4_address h) && is_definite (Host.has_ipv6_address h).

Definition entity_after (resolver : DNSResolver) (e : Entity.t) : Entity.t :=
  let main := host_after resolver (Entity.main_host e) in
  let additional := map (host_after resolver) (Entity.additional_hosts e) in
  Entity.mk (Entity.country e) (Entity.category e) (Entity.name e) main additional
            (py_and (Host.has_ipv6_address main)
                    (forallb (fun host => truthy (Host.has_ipv6_address host)) additional)).

Definition world_after_entity (resolver : DNSResolver) (e : Entity.t) (w : World) : World :=
  fold_left (fun w h => world_after_host resolver h w) (Entity.additional_hosts e)
            (world_after_host resolver (Entity.main_host e) w).

Definition entity_resolved (e : Entity.t) : bool :=
  host_resolved (Entity.main_host e)
  && forallb host_resolved (Entity.additional_hosts e)
  && is_definite (Entity.ipv6_ready e).

Definition map_values {V} (f : V -> V) (d : dict V) : dict V :=
  map (fun kv => (fst kv, f (snd kv))) d.

Definition fold_values {V} (g : V -> World -> World) (d : dict V) (w : World) : World :=
  fold_left (fun w kv => g (snd kv) w) d w.

Definition category_after (resolver : DNSResolver) (c : Category.t) : Category.t :=
  Category.set_entities (map (entity_after resolver) (Category.entities c)) c.

Definition world_after_category (resolver : DNSResolver) (c : Category.t) (w : World)
    : World :=
  fold_left (fun w e => world_after_entity resolver e w) (Category.entities c) w.

Definition country_after (resolver : DNSResolver) (c : CountryData.t) : CountryData.t :=
  CountryData.set_categories
    (map_values (category_after resolver) (CountryData.categories c)) c.

Definition world_after_country (resolver : DNSResolver) (c : CountryData.t) (w : World)
    : World :=
  fold_values (world_after_category resolver) (CountryData.categories c) w.

Definition source_after (resolver : DNSResolver) (s : Source.t) : Source.t :=
  Source.set_countries_data
    (map_values (country_after resolver) (Source.countries_data s)) s.

Definition world_after_source (resolver : DNSResolver) (s : Source.t) (w : World)
    : World :=
  fold_values (world_after_country resolver) (Source.countries_data s) w.

(** The entities that [extend_from_json] builds before it stops: those of
    the records up to the first one that [from_json] rejects. *)
Fixpoint built_entities (json_entities : list Entity.json) : list Entity.t :=
  match json_entities with
  | [] => []
  | json_entity :: rest =>
      match Entity.from_json json_entity with
      | Ok entity => entity :: built_entities rest
      | Raise _ => []
      end
  end.

Definition registered_at (country category : string) (entity : Entity.t) : bool :=
  String.eqb (Entity.country entity) country
  && String.eqb (Entity.category entity) category.

(** [l'] is [l] followed by further elements. *)
Definition extends_list {X} (l l' : list X) : Prop := exists added, l' = l ++ added.

(** Every category of [c] is still in [c'], under its key and at its place,
    with the same tag and with its entities followed by further ones. *)
Definition country_extends (c c' : CountryData.t) : Prop :=
  CountryData.country_code c' = CountryData.country_code c /\
  extends_list (dict_keys (CountryData.categories c)) (dict_keys (CountryData.categories c')) /\
  forall key cat,
    dict_get key (CountryData.categories c) = Some cat ->
    exists cat',
      dict_get key (CountryData.categories c') = Some cat' /\
      Category.category cat' = Category.category cat /\
      extends_list (Category.entities cat) (Category.entities cat').

(** Every country of [s] is still in [s'], under its key and at its place,
    and extended. *)
Definition source_extends (s s' : Source.t) : Prop :=
  extends_list (dict_keys (Source.countries_data s)) (dict_keys (Source.countries_data s')) /\
  forall key c,
    dict_get key (Source.countries_data s) = Some c ->
    exists c',
      dict_get key (Source.countries_data s') = Some c' /\ country_extends c c'.

(** Registering a sequence of entities, one after the other. *)
Definition register_all (es : list Entity.t) (s : Source.t) : Source.t :=
  fold_left (fun s e => Source.register e s) es s.

(** ** Callers of the tree

    What a caller can do to the tree of a source: extend it from records,
    or register an entity into a country or into a category that it reaches
    through the dictionaries. *)
Inductive call : Type :=
| ExtendFromJson (json_entities : list Entity.json)
    (* source.extend_from_json(json_entities) *)
| CountryRegister (code : string) (entity : Entity.t)
    (* source.countries_data[code].register(entity) *)
| CategoryRegister (code tag : string) (entity : Entity.t).
    (* source.countries_data[code].categories[tag].register(entity) *)

(** The source after a call, whether the call returned or raised
    ([KeyError] for a record without a required key, or for a code or a tag
    that the dictionaries do not have). *)
Definition run_call (c : call) (s : Source.t) : Source.t :=
  match c with
  | ExtendFromJson json_entities => snd (Source.extend_from_json json_entities s)
  | CountryRegister code entity =>
      match dict_get code (Source.countries_data s) with
      | Some country =>
          Source.set_countries_data
            (dict_set code (CountryData.register entity country)
                      (Source.countries_data s)) s
      | None => s
      end
  | CategoryRegister code tag entity =>
      match dict_get code (Source.countries_data s) with
      | Some country =>
          match dict_get tag (CountryData.categories country) with
          | Some cat =>
              Source.set_countries_data
                (dict_set code
                   (CountryData.set_categories
                      (dict_set tag (Category.register entity cat)
                                (CountryData.categories country))
                      country)
                   (Source.countries_data s)) s
          | None => s
          end
      | None => s
      end
  end.

Definition run_calls (calls : list call) (s : Source.t) : Source.t :=
  fold_left (fun s c => run_call c s) calls s.

(** The entities that a call made in state [s] appends under a country code
    and a category tag, in the order in which it appends them. *)
Definition appended_by (c : call) (s : Source.t) (country category : string)
    : list Entity.t :=
  match c with
  | ExtendFromJson json_entities =>
      filter (registered_at country category) (built_entities json_entities)
  | CountryRegister code entity =>
      if String.eqb code country
         && String.eqb (Entity.category entity) category
         && dict_contains code (Source.countries_data s)
      then [entity] else []
  | CategoryRegister code tag entity =>
      if String.eqb code country
         && String.eqb tag category
         && match dict_get code (Source.countries_data s) with
            | Some c => dict_contains tag (CountryData.categories c)
            | None => false
            end
      then [entity] else []
  end.

Fixpoint appended (calls : list call) (s : Source.t) (country category : string)
    : list Entity.t :=
  match calls with
  | [] => []
  | c :: rest =>
      appended_by c s country category
      ++ appended rest (run_call c s) country category
  end.

(** Half a unit in the last place of a binary64 significand, relative to
    the value: 2^-53. *)
Definition b64_unit : Q := 1 # 9007199254740992.

Definition two_pow_44 : Z := 17592186044416.

(** The ratio as the specification words it: the exact quotient of the two
    counts as a percentage, rounded to an integer the standard way, a half
    going up, with no digit after the point. *)
Definition round_half_up (x : Q) : Z := Qfloor (x + (1 # 2)).

Definition spec_ready_percentage (c : Category.t) : string :=
  str_of_Z (round_half_up
              (100 * (inject_Z (Category.ready_count c)
                      / inject_Z (Category.total_count c))))
  ++ "%".

(** ** The event loop

    The tasks that [asyncio.gather] runs are resumed one at a time, each
    when the answer it awaits arrives. A pool holds the [Host.resolve] task
    of every host of the tree; a schedule resumes them in any order. The
    order of the program (the main host of an entity returns before the
    tasks of its additional hosts start) only removes schedules. The
    readiness of an entity is computed from its hosts once their tasks have
    returned, and the time is read once all have. *)

(** Where a [Host.resolve] task stands: awaiting the answer to its A query,
    awaiting the answer to its AAAA query, or returned. *)
Inductive pc : Type := AwaitA | AwaitAAAA | Returned.

Definition task : Type := (Host.t * pc)%type.

(** The event loop resumes a task with the answer it awaits; the task runs
    up to its next await. *)
Definition task_step (resolver : DNSResolver) (t : task) (w : World) : task * World :=
  match snd t with
  | AwaitA =>
      let '(_, (h, w1)) := Host.resolve_ipv4 resolver (fst t, w) in ((h, AwaitAAAA), w1)
  | AwaitAAAA =>
      let '(_, (h, w1)) := Host.resolve_ipv6 resolver (fst t, w) in ((h, Returned), w1)
  | Returned => (t, w)
  end.

(** Resume the task at position [i] of the pool. *)
Fixpoint step_at (resolver : DNSResolver) (i : nat) (pool : list task) (w : World)
    : list task * World :=
  match pool, i with
  | [], _ => ([], w)
  | t :: rest, O => let '(t', w1) := task_step resolver t w in (t' :: rest, w1)
  | t :: rest, S j => let '(rest', w1) := step_at resolver j rest w in (t :: rest', w1)
  end.

(** A schedule: the positions of the tasks resumed, in the order in which
    their answers arrive. *)
Fixpoint run_schedule (resolver : DNSResolver) (schedule : list nat)
    (pool : list task) (w : World) : list task * World :=
  match schedule with
  | [] => (pool, w)
  | i :: rest =>
      let '(pool1, w1) := step_at resolver i pool w in
      run_schedule resolver rest pool1 w1
  end.

Definition returned (t : task) : bool :=
  match snd t with Returned => true | _ => false end.

Definition spawn (hs : list Host.t) : list task := map (fun h => (h, AwaitA)) hs.

Definition entity_hosts (e : Entity.t) : list Host.t :=
  Entity.main_host e :: Entity.additional_hosts e.

Definition all_hosts (s : Source.t) : list Host.t :=
  flat_map entity_hosts (Source.all_entities s).

Inductive counter : Type := Ipv4Success | Ipv4Failure | Ipv6Success | Ipv6Failure.

Definition count_of (k : counter) (m : Metrics) : N :=
  match k with
  | Ipv4Success => ipv4_resolution_success m
  | Ipv4Failure => ipv4_resolution_failure m
  | Ipv6Success => ipv6_resolution_success m
  | Ipv6Failure => ipv6_resolution_failure m
  end.

Definition after_ipv4 (resolver : DNSResolver) (h : Host.t) : Host.t :=
  Host.set_has_ipv4_address (Some (ipv4_verdict (lookup resolver (Host.name h) A))) h.

Definition after_ipv6 (resolver : DNSResolver) (h : Host.t) : Host.t :=
  Host.set_has_ipv6_address (Some (ipv6_verdict (lookup resolver (Host.name h) AAAA))) h.

(** What the A step, and the AAAA step, of a host adds to a counter. *)
Definition ipv4_counts (resolver : DNSResolver) (h : Host.t) (k : counter) : N :=
  match k, lookup resolver (Host.name h) A with
  | Ipv4Success, Results _ => 1
  | Ipv4Failure, Failure => 1
  | _, _ => 0
  end.

Definition ipv6_counts (resolver : DNSResolver) (h : Host.t) (k : counter) : N :=
  match k, lookup resolver (Host.name h) AAAA with
  | Ipv6Success, Results _ => 1
  | Ipv6Failure, Failure => 1
  | _, _ => 0
  end.

Definition host_counts (resolver : DNSResolver) (k : counter) (h : Host.t) : N :=
  ipv4_counts resolver h k + ipv6_counts resolver h k.

(** The host a task ends with, and what it has still to count. *)
Definition task_final (resolver : DNSResolver) (t : task) : Host.t :=
  match snd t with
  | AwaitA => host_after resolver (fst t)
  | AwaitAAAA => after_ipv6 resolver (fst t)
  | Returned => fst t
  end.

Definition task_pending (resolver : DNSResolver) (k : counter) (t : task) : N :=
  match snd t with
  | AwaitA => host_counts resolver k (fst t)
  | AwaitAAAA => ipv6_counts resolver (fst t) k
  | Returned => 0
  end.

Definition sum_N (l : list N) : N := fold_right N.add 0%N l.

(** The answers that a task, and a pool, have still to receive. *)
Definition task_awaits (t : task) : Z :=
  match snd t with AwaitA => 2 | AwaitAAAA => 1 | Returned => 0 end.

Definition pool_awaits (pool : list task) : Z :=
  fold_right (fun t n => (task_awaits t + n)%Z) 0%Z pool.

Definition advance (p : pc) : pc :=
  match p with AwaitA => AwaitAAAA | _ => Returned end.

(** Every task resumed once, in the order of the pool. *)
Definition one_round (first count : nat) : list nat := seq first count.

(** ** Sample data *)

Definition sample_world : World := mkWorld (mkMetrics 0 0 0 0) [] 1635724800.

(** A resolver that knows three names: one with a native and a mapped AAAA
    record, one with mapped AAAA records only, one with an A record only. *)
Definition sample_resolver : DNSResolver :=
  mkResolver (fun name rtype =>
    if String.eqb name "example.com" then
      match rtype with
      | A => Results ["93.184.216.34"]
      | AAAA => Results ["::ffff:93.184.216.34"; "2606:2800:220:1:248:1893:25c8:1946"]
      end
    else if String.eqb name "mapped.example" then
      match rtype with
      | A => Results ["192.0.2.1"]
      | AAAA => Results ["::ffff:192.0.2.1"; "::ffff:192.0.2.2"]
      end
    else if String.eqb name "v4only.example" then
      match rtype with
      | A => Results ["192.0.2.7"]
      | AAAA => Failure
      end
    else Failure).

Definition sample_json : Entity.json :=
  Entity.mk_json (Some "us") (Some "bank") None (Some "example.com")
                 (Some ["mapped.example"]).

Definition sample_entity (ready : option bool) : Entity.t :=
  Entity.mk "us" "bank" "example.com" (Host.new "example.com") [] ready.

(** Three entities, two of them ready. *)
Definition two_of_three : Category.t :=
  Category.mk "bank"
    [sample_entity (Some true); sample_entity (Some false); sample_entity (Some true)].

(** Forty entities, twenty-three of them ready: 57.5 percent exactly. *)
Definition twenty_three_of_forty : Category.t :=
  Category.mk "bank"
    (repeat (sample_entity (Some true)) 23 ++ repeat (sample_entity (Some false)) 17).

(** Eight entities, one of them ready: 12.5 percent exactly. *)
Definition one_of_eight : Category.t :=
  Category.mk "bank"
    (sample_entity (Some true) :: repeat (sample_entity (Some false)) 7).

(** Eight entities, three of them ready: 37.5 percent exactly. *)
Definition three_of_eight : Category.t :=
  Category.mk "bank"
    (repeat (sample_entity (Some true)) 3 ++ repeat (sample_entity (Some false)) 5).

(** One country, one category, one entity with no additional host. *)
Definition sample_source : Source.t :=
  snd (Source.extend_from_json
         [Entity.mk_json (Some "us") (Some "bank") None (Some "example.com") None]
         Source.new).

(** ** Well-formed trees

    What [extend_from_json] keeps true of the tree it fills: keys are unique
    (they are those of Python dictionaries), each node is filed under its
    own code or tag, each entity under its own country and category, and no
    country or category is empty. *)

Definition category_wf (country tag : string) (c : Category.t) : Prop :=
  Category.category c = tag /\
  Category.entities c <> [] /\
  Forall (fun e => Entity.country e = country /\ Entity.category e = tag)
         (Category.entities c).

Definition country_wf (code : string) (c : CountryData.t) : Prop :=
  CountryData.country_code c = code /\
  CountryData.categories c <> [] /\
  NoDup (dict_keys (CountryData.categories c)) /\
  Forall (fun kv => category_wf code (fst kv) (snd kv)) (CountryData.categories c).

Definition source_wf (s : Source.t) : Prop :=
  NoDup (dict_keys (Source.countries_data s)) /\
  Forall (fun kv => country_wf (fst kv) (snd kv)) (Source.countries_data s).

(** The categories of the tree in iteration order. *)
Definition all_categories (s : Source.t) : list Category.t :=
  flat_map (fun country => dict_values (CountryData.categories country))
           (dict_values (Source.countries_data s)).

(** The required keys of a raw record are present (its values are typed
    by [Entity.json]). *)
Definition json_well_formed (j : Entity.json) : bool :=
  match Entity.json_main_host j, Entity.json_country j, Entity.json_category j with
  | Some _, Some _, Some _ => true
  | _, _, _ => false
  end.

(** What resolution leaves alone in an entity: where it is filed, its name
    and the names of its hosts. *)
Definition entity_identity (e : Entity.t)
    : string * string * string * string * list string :=
  (Entity.country e, Entity.category e, Entity.name e,
   Host.name (Entity.main_host e), map Host.name (Entity.additional_hosts e)).

(** All the hosts of an entity have a genuine IPv6 address. *)
Definition hosts_have_ipv6 (e : Entity.t) : bool :=
  forallb (fun h => truthy (Host.has_ipv6_address h)) (entity_hosts e).

(** The resolver that answers AAAA as [resolver] does and fails every A
    query. *)
Definition without_ipv4 (resolver : DNSResolver) : DNSResolver :=
  mkResolver (fun name rtype =>
    match rtype with
    | A => Failure
    | AAAA => lookup resolver name AAAA
    end).

(** ** Reports

    The values that the [as_json] and [as_dict] methods build from Python
    dictionaries, lists, strings, booleans and [None], which [json.dumps]
    then writes. A dictionary keeps its items in insertion order. *)
#[warnings="-register-all"]
Inductive json_value : Type :=
| JNull
| JBool (b : bool)
| JString (s : string)
| JArray (items : list json_value)
| JObject (members : list (string * json_value)).

(** An [Optional[bool]] as a value. *)
Definition json_of_flag (v : option bool) : json_value :=
  match v with
  | None => JNull
  | Some b => JBool b
  end.

(** [{key: f(value) for key, value in d.items()}]: the items are set one
    after the other in a new dictionary. *)
Definition dict_comprehension {V W} (f : V -> W) (d : dict V) : dict W :=
  fold_left (fun acc kv => dict_set (fst kv) (f (snd kv)) acc) d [].

(** value[key] on a report, [None] when the value is no dictionary or has
    no such key. *)
Definition json_get (key : string) (v : json_value) : option json_value :=
  match v with
  | JObject members => dict_get key members
  | _ => None
  end.

Definition Host_as_json (self : Host.t) : json_value :=
  JObject [("name", JString (Host.name self));
           ("has_ipv4_address", json_of_flag (Host.has_ipv4_address self));
           ("has_ipv6_address", json_of_flag (Host.has_ipv6_address self))].

Definition Entity_as_dict (self : Entity.t) : json_value :=
  JObject [("name", JString (Entity.name self));
           ("main_host", Host_as_json (Entity.main_host self));
           ("additional_hosts",
            JArray (map Host_as_json (Entity.additional_hosts self)))].

Definition Category_as_json (self : Category.t) : json_value :=
  JArray (map Entity_as_dict (Category.entities self)).

Definition CountryData_as_json (self : CountryData.t) : json_value :=
  JObject (dict_comprehension Category_as_json (CountryData.categories self)).

(** The dictionary that [Source.as_json] hands to [json.dumps]. *)
Definition Source_as_dict (self : Source.t) : json_value :=
  JObject (dict_comprehension CountryData_as_json (Source.countries_data self)).

(** [json_dumps] is [json.dumps] of the standard library. *)
Definition Source_as_json (json_dumps : json_value -> string) (self : Source.t)
    : string :=
  json_dumps (Source_as_dict self).

(** Python dictionaries have unique keys. *)
Definition keys_unique (s : Source.t) : Prop :=
  NoDup (dict_keys (Source.countries_data s)) /\
  Forall (fun kv => NoDup (dict_keys (CountryData.categories (snd kv))))
         (Source.countries_data s).

(** The report of a host that has been resolved with [resolver]. *)
Definition resolved_host_report (resolver : DNSResolver) (name : string) : json_value :=
  JObject [("name", JString name);
           ("has_ipv4_address", JBool (ipv4_verdict (lookup resolver name A)));
           ("has_ipv6_address", JBool (ipv6_verdict (lookup resolver name AAAA)))].

(** The report of a host that has not been resolved. *)
Definition unresolved_host_report (name : string) : json_value :=
  JObject [("name", JString name);
           ("has_ipv4_address", JNull);
           ("has_ipv6_address", JNull)].

(** The integer that division and formatting write for an exact ratio: the
    ratio rounded to binary64, times 100 rounded to binary64, rounded to an
    integer. *)
Definition percent_of (q : Q) : Z :=
  round_half_even (b64_nearest (b64_nearest q * 100)).

(** ** More sample data *)

(** One country, one category, one entity with an additional host. *)
Definition sample_source_two : Source.t :=
  snd (Source.extend_from_json [sample_json] Source.new).

(** A record without the key "category". *)
Definition sample_bad_json : Entity.json :=
  Entity.mk_json (Some "us") None None (Some "example.com") None.

(** One entity, ready. *)
Definition all_ready : Category.t :=
  Category.mk "bank" [sample_entity (Some true)].

(** * Host.resolve *)

Lemma filter_nonempty_existsb {X} (p : X -> bool) (l : list X) :
  match filter p l with [] => false | _ => true end = existsb p l.
Proof.
  induction l as [|x l IH]; simpl; [reflexivity|].
  destruct (p x); simpl; [reflexivity | exact IH].
Qed.

Lemma Host_resolve_ipv4_closed (resolver : DNSResolver) (h : Host.t) (w : World) :
  Host.resolve_ipv4 resolver (h, w)
  = (Ok tt, (after_ipv4 resolver h, world_after_ipv4 resolver h w)).
Proof.
  destruct h as [n v4 v6].
  unfold Host.resolve_ipv4, after_ipv4, world_after_ipv4, ipv4_verdict,
    try_except_else, bind, gets, query, ret, raise; simpl.
  destruct (lookup resolver n A); reflexivity.
Qed.

Lemma Host_resolve_ipv6_closed (resolver : DNSResolver) (h : Host.t) (w : World) :
  Host.resolve_ipv6 resolver (h, w)
  = (Ok tt, (after_ipv6 resolver h, world_after_ipv6 resolver h w)).
Proof.
  destruct h as [n v4 v6].
  unfold Host.resolve_ipv6, after_ipv6, world_after_ipv6, ipv6_verdict,
    try_except_else, bind, gets, query, ret, raise; simpl.
  destruct (lookup resolver n AAAA); simpl;
    rewrite ?filter_nonempty_existsb; reflexivity.
Qed.

Lemma Host_resolve_closed (resolver : DNSResolver) (h : Host.t) (w : World) :
  Host.resolve resolver (h, w)
  = (Ok tt, (host_after resolver h, world_after_host resolver h w)).
Proof.
  unfold Host.resolve, bind.
  rewrite Host_resolve_ipv4_closed, Host_resolve_ipv6_closed.
  reflexivity.
Qed.

Lemma ipv6_verdict_true_iff (all_results : list string) :
  ipv6_verdict (Results all_results) = true
  <-> exists a, In a all_results /\ startswith a "::ffff:" = false.
Proof.
  simpl. rewrite existsb_exists. split.
  - intros (a & Hin & Hneg). exists a. split; [exact Hin|].
    now apply negb_true_iff.
  - intros (a & Hin & Hpre). exists a. split; [exact Hin|].
    now apply negb_true_iff.
Qed.

Lemma ipv6_verdict_all_mapped (all_results : list string) :
  (forall a, In a all_results -> startswith a "::ffff:" = true) ->
  ipv6_verdict (Results all_results) = false.
Proof.
  intros Hall. destruct (ipv6_verdict (Results all_results)) eqn:E; [|reflexivity].
  apply ipv6_verdict_true_iff in E. destruct E as (a & Hin & Hpre).
  rewrite (Hall a Hin) in Hpre. discriminate.
Qed.

(** C1. When the AAAA query of a host succeeds, [Host.resolve] returns
    normally and leaves [has_ipv6_address] true exactly when some returned
    address does not start with "::ffff:"; when every returned address has
    that prefix the flag is false; and the IPv6-success counter has been
    incremented once in either case. *)
Theorem Host_resolve_ipv6_filter :
  forall (resolver : DNSResolver) (h : Host.t) (w : World) (all_results : list string),
    lookup resolver (Host.name h) AAAA = Results all_results ->
    exists h' w',
      Host.resolve resolver (h, w) = (Ok tt, (h', w')) /\
      (Host.has_ipv6_address h' = Some true
       <-> exists a, In a all_results /\ startswith a "::ffff:" = false) /\
      ((forall a, In a all_results -> startswith a "::ffff:" = true) ->
       Host.has_ipv6_address h' = Some false) /\
      ipv6_resolution_success (metrics w')
      = (ipv6_resolution_success (metrics w) + 1)%N /\
      ipv6_resolution_failure (metrics w') = ipv6_resolution_failure (metrics w).
Proof.
  intros resolver h w all_results Hq.
  exists (host_after resolver h), (world_after_host resolver h w).
  split; [apply Host_resolve_closed|].
  unfold host_after; cbn [Host.has_ipv6_address]. rewrite Hq.
  split; [|split; [|split]].
  - split.
    + intros [= Hv]. now apply ipv6_verdict_true_iff.
    + intros Hex. f_equal. now apply ipv6_verdict_true_iff.
  - intros Hall. f_equal. now apply ipv6_verdict_all_mapped.
  - unfold world_after_host, world_after_ipv6, world_after_ipv4. rewrite Hq.
    destruct (lookup resolver (Host.name h) A); reflexivity.
  - unfold world_after_host, world_after_ipv6, world_after_ipv4. rewrite Hq.
    destruct (lookup resolver (Host.name h) A); reflexivity.
Qed.

(** C3. [Host.resolve] returns normally for every host and every pair of
    answers to its two queries. A failed query leaves [Some false] in its
    flag and adds one to its failure counter, a successful A query leaves
    [Some true] and adds one to the IPv4-success counter; both flags are
    definite afterwards; and [has_ipv6_address] is a function of the AAAA
    answer alone: a resolver that answers AAAA the same way leaves the same
    value, whatever it answers to A. *)
Theorem Host_resolve_never_fails :
  forall (resolver : DNSResolver) (h : Host.t) (w : World),
    exists h' w',
      Host.resolve resolver (h, w) = (Ok tt, (h', w')) /\
      Host.name h' = Host.name h /\
      match lookup resolver (Host.name h) A with
      | Failure =>
          Host.has_ipv4_address h' = Some false /\
          ipv4_resolution_failure (metrics w')
          = (ipv4_resolution_failure (metrics w) + 1)%N /\
          ipv4_resolution_success (metrics w') = ipv4_resolution_success (metrics w)
      | Results _ =>
          Host.has_ipv4_address h' = Some true /\
          ipv4_resolution_failure (metrics w') = ipv4_resolution_failure (metrics w) /\
          ipv4_resolution_success (metrics w')
          = (ipv4_resolution_success (metrics w) + 1)%N
      end /\
      match lookup resolver (Host.name h) AAAA with
      | Failure =>
          Host.has_ipv6_address h' = Some false /\
          ipv6_resolution_failure (metrics w')
          = (ipv6_resolution_failure (metrics w) + 1)%N
      | Results _ =>
          ipv6_resolution_failure (metrics w') = ipv6_resolution_failure (metrics w)
      end /\
      host_resolved h' = true /\
      (forall (resolver2 : DNSResolver) (w2 : World),
          lookup resolver2 (Host.name h) AAAA = lookup resolver (Host.name h) AAAA ->
          exists h2 w2',
            Host.resolve resolver2 (h, w2) = (Ok tt, (h2, w2')) /\
            Host.has_ipv6_address h2 = Host.has_ipv6_address h').
Proof.
  intros resolver h w.
  exists (host_after resolver h), (world_after_host resolver h w).
  split; [apply Host_resolve_closed|].
  split; [reflexivity|].
  unfold host_after, world_after_host, world_after_ipv6, world_after_ipv4,
    host_resolved; simpl.
  split; [|split; [|split]].
  - destruct (lookup resolver (Host.name h) A);
      destruct (lookup resolver (Host.name h) AAAA); simpl; auto.
  - destruct (lookup resolver (Host.name h) A);
      destruct (lookup resolver (Host.name h) AAAA); simpl; auto.
  - reflexivity.
  - intros resolver2 w2 Hsame.
    exists (host_after resolver2 h), (world_after_host resolver2 h w2).
    split; [apply Host_resolve_closed|].
    unfold host_after; simpl. now rewrite Hsame.
Qed.

(** * Composition: zoom and gather *)

Section ClosedForms.

Context {T U : Type}.
Variable m : M (U * World) unit.
Variable f : U -> U.
Variable g : U -> World -> World.
Hypothesis m_closed : forall u w, m (u, w) = (Ok tt, (f u, g u w)).

Lemma gather_from_closed (xs : list U) (w : World) :
  gather_from m xs w
  = (Ok tt, (map f xs, fold_left (fun w x => g x w) xs w)).
Proof.
  revert w. induction xs as [|x xs IH]; intros w; simpl; [reflexivity|].
  rewrite m_closed, IH. reflexivity.
Qed.

Lemma gather_closed (xs : list U) (w : World) :
  gather m (xs, w) = (Ok tt, (map f xs, fold_left (fun w x => g x w) xs w)).
Proof. apply gather_from_closed. Qed.

Lemma zoom_closed (get : T -> U) (set : U -> T -> T) (s : T) (w : World) :
  zoom get set m (s, w) = (Ok tt, (set (f (get s)) s, g (get s) w)).
Proof. unfold zoom; simpl. now rewrite m_closed. Qed.

End ClosedForms.

Lemma gather_values_closed {V} (m : M (V * World) unit) (f : V -> V)
    (g : V -> World -> World) :
  (forall v w, m (v, w) = (Ok tt, (f v, g v w))) ->
  forall (d : dict V) (w : World),
    gather_values m (d, w) = (Ok tt, (map_values f d, fold_values g d w)).
Proof.
  intros Hm d w. unfold gather_values.
  refine (gather_closed _ (fun kv => (fst kv, f (snd kv)))
                        (fun kv w => g (snd kv) w) _ d w).
  intros [k v] w0. now rewrite (zoom_closed m f g Hm).
Qed.

(** * Entity.resolve *)

Lemma Entity_resolve_closed (resolver : DNSResolver) (e : Entity.t) (w : World) :
  Entity.resolve resolver (e, w)
  = (Ok tt, (entity_after resolver e, world_after_entity resolver e w)).
Proof.
  unfold Entity.resolve, bind.
  rewrite (zoom_closed _ _ _ (Host_resolve_closed resolver)).
  rewrite (zoom_closed _ _ _ (gather_closed _ _ _ (Host_resolve_closed resolver))).
  reflexivity.
Qed.

Lemma host_after_ipv6 (resolver : DNSResolver) (h : Host.t) :
  Host.has_ipv6_address (host_after resolver h)
  = Some (ipv6_verdict (lookup resolver (Host.name h) AAAA)).
Proof. reflexivity. Qed.

Lemma host_after_resolved (resolver : DNSResolver) (h : Host.t) :
  host_resolved (host_after resolver h) = true.
Proof. reflexivity. Qed.

Lemma forallb_hosts_after (resolver : DNSResolver) (hs : list Host.t) :
  forallb (fun host => truthy (Host.has_ipv6_address host)) (map (host_after resolver) hs)
  = forallb (fun b => b)
      (map (fun h => ipv6_verdict (lookup resolver (Host.name h) AAAA)) hs).
Proof.
  induction hs as [|h hs IH]; simpl; [reflexivity|].
  rewrite IH. now destruct (ipv6_verdict (lookup resolver (Host.name h) AAAA)).
Qed.

Lemma forallb_false_In (bs : list bool) :
  In false bs -> forallb (fun b => b) bs = false.
Proof.
  induction bs as [|b bs IH]; simpl; [tauto|].
  intros [-> | Hin]; [reflexivity|].
  rewrite (IH Hin). apply andb_false_r.
Qed.

(** C2. [Entity.resolve] returns normally; afterwards the IPv6 flag of the
    main host and of every additional host is a definite boolean, and
    [ipv6_ready] is the conjunction of the main host's flag with all the
    additional hosts' flags. With no additional host the entity is ready
    exactly when the main host has IPv6; an additional host whose flag is
    false makes [ipv6_ready] false. *)
Theorem Entity_resolve_ipv6_ready :
  forall (resolver : DNSResolver) (e : Entity.t) (w : World),
    exists e' w' b_main b_additional,
      Entity.resolve resolver (e, w) = (Ok tt, (e', w')) /\
      Host.has_ipv6_address (Entity.main_host e') = Some b_main /\
      map Host.has_ipv6_address (Entity.additional_hosts e') = map Some b_additional /\
      length (Entity.additional_hosts e') = length (Entity.additional_hosts e) /\
      Entity.ipv6_ready e' = Some (b_main && forallb (fun b => b) b_additional) /\
      (Entity.additional_hosts e = [] ->
       (Entity.ipv6_ready e' = Some true
        <-> Host.has_ipv6_address (Entity.main_host e') = Some true)) /\
      ((exists host, In host (Entity.additional_hosts e') /\
                     Host.has_ipv6_address host = Some false) ->
       Entity.ipv6_ready e' = Some false).
Proof.
  intros resolver e w.
  set (verdict := fun h : Host.t => ipv6_verdict (lookup resolver (Host.name h) AAAA)).
  exists (entity_after resolver e), (world_after_entity resolver e w),
    (verdict (Entity.main_host e)), (map verdict (Entity.additional_hosts e)).
  assert (Hadd : map Host.has_ipv6_address
                     (map (host_after resolver) (Entity.additional_hosts e))
                 = map Some (map verdict (Entity.additional_hosts e))).
  { rewrite !map_map. apply map_ext. intros h. apply host_after_ipv6. }
  assert (Hready : Entity.ipv6_ready (entity_after resolver e)
                   = Some (verdict (Entity.main_host e)
                           && forallb (fun b => b)
                                (map verdict (Entity.additional_hosts e)))).
  { unfold entity_after; cbn [Entity.ipv6_ready].
    rewrite host_after_ipv6, forallb_hosts_after.
    fold verdict. fold (verdict (Entity.main_host e)).
    unfold py_and. now destruct (verdict (Entity.main_host e)). }
  split; [apply Entity_resolve_closed|].
  split; [apply host_after_ipv6|].
  split; [exact Hadd|].
  split; [unfold entity_after; cbn [Entity.additional_hosts]; apply length_map|].
  split; [exact Hready|].
  split.
  - intros Hnone. rewrite Hready, Hnone. simpl. rewrite andb_true_r.
    change (Host.has_ipv6_address (Entity.main_host (entity_after resolver e)))
      with (Some (verdict (Entity.main_host e))).
    reflexivity.
  - intros (host & Hin & Hfalse). rewrite Hready. f_equal.
    rewrite forallb_false_In; [apply andb_false_r|].
    unfold entity_after in Hin; cbn [Entity.additional_hosts] in Hin.
    apply in_map_iff in Hin. destruct Hin as (h0 & <- & Hin0).
    rewrite host_after_ipv6 in Hfalse. injection Hfalse as Hv.
    apply in_map_iff. exists h0. split; [exact Hv | exact Hin0].
Qed.

Lemma entity_after_resolved (resolver : DNSResolver) (e : Entity.t) :
  entity_resolved (entity_after resolver e) = true.
Proof.
  unfold entity_resolved, entity_after; simpl.
  assert (Hall : forallb host_resolved
                   (map (host_after resolver) (Entity.additional_hosts e)) = true).
  { apply forallb_forall. intros h Hin. apply in_map_iff in Hin.
    destruct Hin as (h0 & <- & _). apply host_after_resolved. }
  rewrite Hall. unfold py_and.
  now destruct (ipv6_verdict (lookup resolver (Host.name (Entity.main_host e)) AAAA)).
Qed.

(** * Source.resolve_all *)

Lemma Category_resolve_closed (resolver : DNSResolver) (c : Category.t) (w : World) :
  zoom Category.entities Category.set_entities (gather (Entity.resolve resolver)) (c, w)
  = (Ok tt, (category_after resolver c, world_after_category resolver c w)).
Proof.
  now rewrite (zoom_closed _ _ _ (gather_closed _ _ _ (Entity_resolve_closed resolver))).
Qed.

Lemma Country_resolve_closed (resolver : DNSResolver) (c : CountryData.t) (w : World) :
  zoom CountryData.categories CountryData.set_categories
    (gather_values
       (zoom Category.entities Category.set_entities (gather (Entity.resolve resolver))))
    (c, w)
  = (Ok tt, (country_after resolver c, world_after_country resolver c w)).
Proof.
  now rewrite (zoom_closed _ _ _
                 (gather_values_closed _ _ _ (Category_resolve_closed resolver))).
Qed.

Lemma Source_resolve_entities_closed (resolver : DNSResolver) (s : Source.t) (w : World) :
  Source.resolve_entities resolver (s, w)
  = (Ok tt, (source_after resolver s, world_after_source resolver s w)).
Proof.
  unfold Source.resolve_entities.
  now rewrite (zoom_closed _ _ _
                 (gather_values_closed _ _ _ (Country_resolve_closed resolver))).
Qed.

Lemma flat_map_map_values {V X} (f : V -> V) (k k' : V -> list X) (d : dict V) :
  (forall v, k' (f v) = k v) ->
  flat_map k' (dict_values (map_values f d)) = flat_map k (dict_values d).
Proof.
  intros Hk. induction d as [|[key v] d IH]; simpl; [reflexivity|].
  now rewrite Hk, IH.
Qed.

Lemma flat_map_map_after {X Y} (f : Y -> Y) (k : X -> list Y) (l : list X) :
  flat_map (fun x => map f (k x)) l = map f (flat_map k l).
Proof.
  induction l as [|x l IH]; simpl; [reflexivity|].
  now rewrite IH, map_app.
Qed.

Lemma all_entities_source_after (resolver : DNSResolver) (s : Source.t) :
  Source.all_entities (source_after resolver s)
  = map (entity_after resolver) (Source.all_entities s).
Proof.
  unfold Source.all_entities, source_after; cbn [Source.countries_data Source.set_countries_data].
  rewrite <- flat_map_map_after.
  apply flat_map_map_values. intros c.
  unfold country_after; cbn [CountryData.categories CountryData.set_categories].
  rewrite <- flat_map_map_after.
  apply flat_map_map_values. intros cat. reflexivity.
Qed.

(** * The order in which the answers arrive *)

Lemma count_after_ipv4 (resolver : DNSResolver) (h : Host.t) (w : World) (k : counter) :
  count_of k (metrics (world_after_ipv4 resolver h w))
  = (count_of k (metrics w) + ipv4_counts resolver h k)%N.
Proof.
  unfold world_after_ipv4, ipv4_counts.
  destruct (lookup resolver (Host.name h) A), k; simpl; lia.
Qed.

Lemma count_after_ipv6 (resolver : DNSResolver) (h : Host.t) (w : World) (k : counter) :
  count_of k (metrics (world_after_ipv6 resolver h w))
  = (count_of k (metrics w) + ipv6_counts resolver h k)%N.
Proof.
  unfold world_after_ipv6, ipv6_counts.
  destruct (lookup resolver (Host.name h) AAAA), k; simpl; lia.
Qed.

Lemma count_after_host (resolver : DNSResolver) (h : Host.t) (w : World) (k : counter) :
  count_of k (metrics (world_after_host resolver h w))
  = (count_of k (metrics w) + host_counts resolver k h)%N.
Proof.
  unfold world_after_host, host_counts.
  rewrite count_after_ipv6, count_after_ipv4. lia.
Qed.

Lemma task_step_invariant (resolver : DNSResolver) (t : task) (w : World) (k : counter) :
  task_final resolver (fst (task_step resolver t w)) = task_final resolver t
  /\ (count_of k (metrics (snd (task_step resolver t w)))
      + task_pending resolver k (fst (task_step resolver t w))
      = count_of k (metrics w) + task_pending resolver k t)%N.
Proof.
  destruct t as [h [| |]]; unfold task_step, task_final, task_pending; simpl.
  - rewrite Host_resolve_ipv4_closed; simpl. split; [reflexivity|].
    rewrite count_after_ipv4. unfold host_counts, ipv6_counts, after_ipv4; simpl. lia.
  - rewrite Host_resolve_ipv6_closed; simpl. split; [reflexivity|].
    rewrite count_after_ipv6. lia.
  - split; reflexivity.
Qed.

Lemma sum_N_cons (x : N) (l : list N) : sum_N (x :: l) = (x + sum_N l)%N.
Proof. reflexivity. Qed.

Lemma step_at_invariant (resolver : DNSResolver) (k : counter) (i : nat)
    (pool : list task) (w : World) :
  map (task_final resolver) (fst (step_at resolver i pool w))
  = map (task_final resolver) pool
  /\ (count_of k (metrics (snd (step_at resolver i pool w)))
      + sum_N (map (task_pending resolver k) (fst (step_at resolver i pool w)))
      = count_of k (metrics w) + sum_N (map (task_pending resolver k) pool))%N.
Proof.
  revert i. induction pool as [|t rest IH]; intros i; cbn [step_at].
  - destruct i; split; reflexivity.
  - destruct i as [|j]; cbn [step_at].
    + pose proof (task_step_invariant resolver t w k) as [Hf Hc].
      destruct (task_step resolver t w) as [t' w1].
      cbn [fst snd map] in *. rewrite !sum_N_cons.
      split; [now rewrite Hf | lia].
    + specialize (IH j). destruct IH as [Hf Hc].
      destruct (step_at resolver j rest w) as [rest' w1].
      cbn [fst snd map] in *. rewrite !sum_N_cons.
      split; [now rewrite Hf | lia].
Qed.

Lemma run_schedule_invariant (resolver : DNSResolver) (k : counter)
    (schedule : list nat) (pool : list task) (w : World) :
  map (task_final resolver) (fst (run_schedule resolver schedule pool w))
  = map (task_final resolver) pool
  /\ (count_of k (metrics (snd (run_schedule resolver schedule pool w)))
      + sum_N (map (task_pending resolver k)
                   (fst (run_schedule resolver schedule pool w)))
      = count_of k (metrics w) + sum_N (map (task_pending resolver k) pool))%N.
Proof.
  revert pool w. induction schedule as [|i rest IH]; intros pool w; cbn [run_schedule].
  - split; reflexivity.
  - pose proof (step_at_invariant resolver k i pool w) as [Hf Hc].
    destruct (step_at resolver i pool w) as [pool1 w1]; cbn [fst snd] in *.
    destruct (IH pool1 w1) as [Hf1 Hc1]. split; [congruence | lia].
Qed.

Lemma returned_pool (resolver : DNSResolver) (k : counter) (pool : list task) :
  forallb returned pool = true ->
  map (task_final resolver) pool = map fst pool
  /\ sum_N (map (task_pending resolver k) pool) = 0%N.
Proof.
  induction pool as [|[h p] rest IH]; cbn [forallb map]; [split; reflexivity|].
  intros Hall. apply andb_true_iff in Hall. destruct Hall as [Ht Hrest].
  destruct (IH Hrest) as [Hf Hp]. destruct p; try discriminate.
  rewrite sum_N_cons, Hf, Hp. split; reflexivity.
Qed.

Lemma spawn_pool (resolver : DNSResolver) (k : counter) (hs : list Host.t) :
  map (task_final resolver) (spawn hs) = map (host_after resolver) hs
  /\ sum_N (map (task_pending resolver k) (spawn hs))
     = sum_N (map (host_counts resolver k) hs).
Proof.
  unfold spawn. rewrite !map_map. split; reflexivity.
Qed.

Lemma metrics_ext (m1 m2 : Metrics) :
  (forall k, count_of k m1 = count_of k m2) -> m1 = m2.
Proof.
  intros H. destruct m1, m2.
  pose proof (H Ipv4Success). pose proof (H Ipv4Failure).
  pose proof (H Ipv6Success). pose proof (H Ipv6Failure).
  simpl in *. congruence.
Qed.

Lemma sum_N_app (l1 l2 : list N) : sum_N (l1 ++ l2) = (sum_N l1 + sum_N l2)%N.
Proof. induction l1 as [|x l1 IH]; simpl; [reflexivity | rewrite IH; lia]. Qed.

Lemma count_fold_left {X} (k : counter) (g : X -> World -> World) (c : X -> N)
    (xs : list X) :
  (forall x w, count_of k (metrics (g x w)) = (count_of k (metrics w) + c x)%N) ->
  forall w,
    count_of k (metrics (fold_left (fun w x => g x w) xs w))
    = (count_of k (metrics w) + sum_N (map c xs))%N.
Proof.
  intros Hg. induction xs as [|x xs IH]; intros w; simpl; [lia|].
  rewrite IH, Hg. lia.
Qed.

Lemma sum_N_flat_map {X Y} (f : X -> list Y) (c : Y -> N) (xs : list X) :
  sum_N (map c (flat_map f xs)) = sum_N (map (fun x => sum_N (map c (f x))) xs).
Proof.
  induction xs as [|x xs IH]; simpl; [reflexivity|].
  now rewrite map_app, sum_N_app, IH.
Qed.

Lemma count_after_entity (resolver : DNSResolver) (k : counter) (e : Entity.t) (w : World) :
  count_of k (metrics (world_after_entity resolver e w))
  = (count_of k (metrics w) + sum_N (map (host_counts resolver k) (entity_hosts e)))%N.
Proof.
  unfold world_after_entity, entity_hosts.
  rewrite (count_fold_left k (world_after_host resolver) (host_counts resolver k)).
  - rewrite count_after_host. simpl. lia.
  - intros h w0. apply count_after_host.
Qed.

Lemma count_after_source (resolver : DNSResolver) (k : counter) (s : Source.t) (w : World) :
  count_of k (metrics (world_after_source resolver s w))
  = (count_of k (metrics w) + sum_N (map (host_counts resolver k) (all_hosts s)))%N.
Proof.
  unfold world_after_source, fold_values, all_hosts, Source.all_entities, dict_values.
  rewrite !sum_N_flat_map.
  rewrite (count_fold_left k (fun kv => world_after_country resolver (snd kv))
             (fun kv => sum_N (map (host_counts resolver k)
                                (flat_map entity_hosts
                                   (flat_map Category.entities
                                      (map snd (CountryData.categories (snd kv)))))))).
  - f_equal. rewrite map_map. f_equal. apply map_ext. intros kv.
    now rewrite !sum_N_flat_map.
  - intros [key c] w0; simpl. unfold world_after_country, fold_values.
    rewrite !sum_N_flat_map.
    rewrite (count_fold_left k (fun kv => world_after_category resolver (snd kv))
               (fun kv => sum_N (map (host_counts resolver k)
                                  (flat_map entity_hosts (Category.entities (snd kv)))))).
    + f_equal. rewrite map_map. f_equal. apply map_ext. intros kv.
      now rewrite !sum_N_flat_map.
    + intros [key' cat] w1; simpl. unfold world_after_category.
      rewrite sum_N_flat_map.
      apply (count_fold_left k (world_after_entity resolver)).
      intros e w2. apply count_after_entity.
Qed.

Lemma all_hosts_source_after (resolver : DNSResolver) (s : Source.t) :
  all_hosts (source_after resolver s) = map (host_after resolver) (all_hosts s).
Proof.
  unfold all_hosts. rewrite all_entities_source_after.
  induction (Source.all_entities s) as [|e es IH]; simpl; [reflexivity|].
  now rewrite IH, map_app.
Qed.

(** X17. Whatever the order in which the answers to the A and AAAA queries
    of the hosts of the tree arrive, once every [Host.resolve] task has
    returned the hosts and the four counters are those that [resolve_all]
    computes. *)
Theorem resolve_all_schedule_independent :
  forall (resolver : DNSResolver) (s : Source.t) (w : World) (schedule : list nat),
    let final := run_schedule resolver schedule (spawn (all_hosts s)) w in
    forallb returned (fst final) = true ->
    exists s1 w1,
      Source.resolve_entities resolver (s, w) = (Ok tt, (s1, w1)) /\
      map fst (fst final) = all_hosts s1 /\
      metrics (snd final) = metrics w1.
Proof.
  intros resolver s w schedule final Hdone.
  exists (source_after resolver s), (world_after_source resolver s w).
  split; [apply Source_resolve_entities_closed|].
  split.
  - destruct (run_schedule_invariant resolver Ipv4Success schedule
                (spawn (all_hosts s)) w) as [Hf _].
    destruct (returned_pool resolver Ipv4Success _ Hdone) as [Hr _].
    destruct (spawn_pool resolver Ipv4Success (all_hosts s)) as [Hs _].
    fold final in Hf.
    rewrite all_hosts_source_after. congruence.
  - apply metrics_ext. intros k.
    destruct (run_schedule_invariant resolver k schedule
                (spawn (all_hosts s)) w) as [_ Hc].
    destruct (returned_pool resolver k _ Hdone) as [_ Hr].
    destruct (spawn_pool resolver k (all_hosts s)) as [_ Hs].
    fold final in Hc. rewrite Hr, Hs in Hc.
    rewrite count_after_source. lia.
Qed.

Lemma task_step_pc (resolver : DNSResolver) (t : task) (w : World) :
  snd (fst (task_step resolver t w)) = advance (snd t).
Proof.
  destruct t as [h [| |]]; unfold task_step; cbn [fst snd].
  - now rewrite Host_resolve_ipv4_closed.
  - now rewrite Host_resolve_ipv6_closed.
  - reflexivity.
Qed.

Lemma step_at_app (resolver : DNSResolver) (done : list task) (t : task)
    (rest : list task) (w : World) :
  step_at resolver (length done) (done ++ t :: rest) w
  = (done ++ fst (task_step resolver t w) :: rest, snd (task_step resolver t w)).
Proof.
  induction done as [|d done IH]; cbn [app length step_at].
  - now destruct (task_step resolver t w).
  - now rewrite IH.
Qed.

Lemma one_round_pcs (resolver : DNSResolver) (rest done : list task) (w : World) :
  map snd (fst (run_schedule resolver (one_round (length done) (length rest))
                             (done ++ rest) w))
  = map snd done ++ map (fun t => advance (snd t)) rest.
Proof.
  revert done w. induction rest as [|t rest IH]; intros done w;
    cbn [length one_round seq run_schedule].
  - now rewrite !app_nil_r.
  - rewrite step_at_app.
    replace (done ++ fst (task_step resolver t w) :: rest)
      with ((done ++ [fst (task_step resolver t w)]) ++ rest)
      by now rewrite <- app_assoc.
    replace (S (length done)) with (length (done ++ [fst (task_step resolver t w)]))
      by (rewrite length_app; simpl; lia).
    unfold one_round in IH. rewrite IH, map_app. cbn [map].
    now rewrite task_step_pc, <- app_assoc.
Qed.

(** The schedule in which all the A answers arrive before the first AAAA
    answer runs every task to its end. *)
Lemma two_rounds_return (resolver : DNSResolver) (hs : list Host.t) (w : World) :
  forallb returned
    (fst (run_schedule resolver
            (one_round 0 (length hs) ++ one_round 0 (length hs)) (spawn hs) w))
  = true.
Proof.
  assert (Happ : forall s1 s2 pool w0,
             run_schedule resolver (s1 ++ s2) pool w0
             = run_schedule resolver s2 (fst (run_schedule resolver s1 pool w0))
                            (snd (run_schedule resolver s1 pool w0))).
  { induction s1 as [|i s1 IH]; intros s2 pool w0; cbn [app run_schedule fst snd];
      [reflexivity|].
    destruct (step_at resolver i pool w0) as [pool1 w1]. apply IH. }
  rewrite Happ.
  pose proof (one_round_pcs resolver (spawn hs) [] w) as H1.
  cbn [app length map] in H1. unfold spawn in H1 at 1. rewrite length_map in H1.
  set (p1 := run_schedule resolver (one_round 0 (length hs)) (spawn hs) w) in *.
  pose proof (one_round_pcs resolver (fst p1) [] (snd p1)) as H2.
  cbn [app length map] in H2.
  assert (Hlen : length (fst p1) = length hs).
  { transitivity (length (map snd (fst p1))); [symmetry; apply length_map|].
    rewrite H1, length_map. unfold spawn. apply length_map. }
  rewrite Hlen in H2.
  set (p2 := run_schedule resolver (one_round 0 (length hs)) (fst p1) (snd p1)) in *.
  assert (Hpcs : map snd (fst p2) = map (fun _ => Returned) hs).
  { rewrite H2. rewrite <- (map_map snd advance), H1.
    unfold spawn. rewrite !map_map. reflexivity. }
  clear - Hpcs. revert Hpcs. generalize (fst p2). intros pool.
  revert pool. induction hs as [|h hs IH]; intros [|[x p] pool]; cbn [map forallb];
    try discriminate; [reflexivity|].
  intros [= Hp Hrest]. subst p. now rewrite (IH pool Hrest).
Qed.

(** * Time: the clock and the answers still awaited *)

Lemma clock_after_ipv4 (resolver : DNSResolver) (h : Host.t) (w : World) :
  clock (world_after_ipv4 resolver h w) = (clock w + 1)%Z.
Proof.
  unfold world_after_ipv4. now destruct (lookup resolver (Host.name h) A).
Qed.

Lemma clock_after_ipv6 (resolver : DNSResolver) (h : Host.t) (w : World) :
  clock (world_after_ipv6 resolver h w) = (clock w + 1)%Z.
Proof.
  unfold world_after_ipv6. now destruct (lookup resolver (Host.name h) AAAA).
Qed.

Lemma clock_after_host (resolver : DNSResolver) (h : Host.t) (w : World) :
  clock (world_after_host resolver h w) = (clock w + 2)%Z.
Proof.
  unfold world_after_host. rewrite clock_after_ipv6, clock_after_ipv4. lia.
Qed.

Lemma clock_after_hosts (resolver : DNSResolver) (hs : list Host.t) (w : World) :
  clock (fold_left (fun w h => world_after_host resolver h w) hs w)
  = (clock w + 2 * Z.of_nat (length hs))%Z.
Proof.
  revert w. induction hs as [|h hs IH]; intros w; cbn [fold_left length]; [lia|].
  rewrite IH, clock_after_host. lia.
Qed.

Lemma fold_left_flat_map {X Y} (g : World -> Y -> World) (k : X -> list Y)
    (xs : list X) (w : World) :
  fold_left g (flat_map k xs) w = fold_left (fun w x => fold_left g (k x) w) xs w.
Proof.
  revert w. induction xs as [|x xs IH]; intros w; cbn [flat_map fold_left];
    [reflexivity|].
  rewrite fold_left_app. apply IH.
Qed.

Lemma fold_left_map {X Y} (g : World -> Y -> World) (k : X -> Y) (xs : list X)
    (w : World) :
  fold_left g (map k xs) w = fold_left (fun w x => g w (k x)) xs w.
Proof.
  revert w. induction xs as [|x xs IH]; intros w; cbn [map fold_left];
    [reflexivity | apply IH].
Qed.

Lemma fold_left_ext {X} (g1 g2 : World -> X -> World) (xs : list X) (w : World) :
  (forall w x, g1 w x = g2 w x) -> fold_left g1 xs w = fold_left g2 xs w.
Proof.
  intros Hg. revert w. induction xs as [|x xs IH]; intros w; cbn [fold_left];
    [reflexivity|].
  now rewrite Hg, IH.
Qed.

(** The world that the gather of [resolve_all] leaves is the one that the
    [Host.resolve] tasks of the hosts of the tree leave, run in the order of
    the tree. *)
Lemma world_after_source_hosts (resolver : DNSResolver) (s : Source.t) (w : World) :
  world_after_source resolver s w
  = fold_left (fun w h => world_after_host resolver h w) (all_hosts s) w.
Proof.
  unfold world_after_source, fold_values, all_hosts, Source.all_entities, dict_values.
  rewrite !fold_left_flat_map, fold_left_map.
  apply fold_left_ext. intros w0 [code c]; cbn [snd].
  unfold world_after_country, fold_values.
  rewrite fold_left_flat_map, fold_left_map.
  apply fold_left_ext. intros w1 [tag cat]; cbn [snd].
  unfold world_after_category.
  apply fold_left_ext. intros w2 e. reflexivity.
Qed.

Lemma clock_after_source (resolver : DNSResolver) (s : Source.t) (w : World) :
  clock (world_after_source resolver s w)
  = (clock w + 2 * Z.of_nat (length (all_hosts s)))%Z.
Proof.
  rewrite world_after_source_hosts. apply clock_after_hosts.
Qed.

Lemma task_step_clock (resolver : DNSResolver) (t : task) (w : World) :
  (clock (snd (task_step resolver t w)) + task_awaits (fst (task_step resolver t w))
   = clock w + task_awaits t)%Z.
Proof.
  destruct t as [h [| |]]; unfold task_step, task_awaits; cbn [fst snd].
  - rewrite Host_resolve_ipv4_closed; cbn [fst snd]. rewrite clock_after_ipv4. lia.
  - rewrite Host_resolve_ipv6_closed; cbn [fst snd]. rewrite clock_after_ipv6. lia.
  - reflexivity.
Qed.

Lemma pool_awaits_cons (t : task) (pool : list task) :
  pool_awaits (t :: pool) = (task_awaits t + pool_awaits pool)%Z.
Proof. reflexivity. Qed.

Lemma step_at_clock (resolver : DNSResolver) (i : nat) (pool : list task) (w : World) :
  (clock (snd (step_at resolver i pool w)) + pool_awaits (fst (step_at resolver i pool w))
   = clock w + pool_awaits pool)%Z.
Proof.
  revert i. induction pool as [|t rest IH]; intros i; cbn [step_at].
  - destruct i; reflexivity.
  - destruct i as [|j]; cbn [step_at].
    + pose proof (task_step_clock resolver t w) as Hc.
      destruct (task_step resolver t w) as [t' w1].
      cbn [fst snd] in *. rewrite !pool_awaits_cons. lia.
    + specialize (IH j).
      destruct (step_at resolver j rest w) as [rest' w1].
      cbn [fst snd] in *. rewrite !pool_awaits_cons. lia.
Qed.

Lemma run_schedule_clock (resolver : DNSResolver) (schedule : list nat)
    (pool : list task) (w : World) :
  (clock (snd (run_schedule resolver schedule pool w))
   + pool_awaits (fst (run_schedule resolver schedule pool w))
   = clock w + pool_awaits pool)%Z.
Proof.
  revert pool w. induction schedule as [|i rest IH]; intros pool w; cbn [run_schedule].
  - reflexivity.
  - pose proof (step_at_clock resolver i pool w) as Hc.
    destruct (step_at resolver i pool w) as [pool1 w1]; cbn [fst snd] in *.
    specialize (IH pool1 w1). lia.
Qed.

Lemma pool_awaits_spawn (hs : list Host.t) :
  pool_awaits (spawn hs) = (2 * Z.of_nat (length hs))%Z.
Proof.
  induction hs as [|h hs IH]; [reflexivity|].
  unfold spawn in *. cbn [map length]. rewrite pool_awaits_cons, IH.
  unfold task_awaits; cbn [snd]. lia.
Qed.

Lemma pool_awaits_returned (pool : list task) :
  (0 <= pool_awaits pool)%Z
  /\ (pool_awaits pool = 0%Z <-> forallb returned pool = true).
Proof.
  induction pool as [|[h p] rest [Hpos Hiff]].
  - split; [reflexivity | split; reflexivity].
  - rewrite pool_awaits_cons. cbn [forallb].
    unfold task_awaits, returned; cbn [snd].
    destruct p; cbn [andb].
    + split; [lia | split; [lia | discriminate]].
    + split; [lia | split; [lia | discriminate]].
    + rewrite <- Hiff. split; [lia | split; lia].
Qed.

(** C5. [Source.resolve_all] returns normally. Its gather of the entity
    tasks ends in a state where [last_resolved] is still what it was and
    every entity of the tree (every country, every category, in place and in
    order) is the resolved form of the entity that stood there, with each of
    its host flags and its readiness definite; [resolve_all] then ends in
    that very state with [last_resolved] set to the time read from the clock
    after the gather, a non-null value. That time is the one at which the
    last answer of the gather arrived, two answers per host of the tree
    after the call: in whatever order the answers arrive, the clock reads
    it exactly when every [Host.resolve] task has returned, and reads less
    as long as a task awaits an answer. *)
Theorem Source_resolve_all_complete :
  forall (resolver : DNSResolver) (s : Source.t) (w : World),
    exists s1 w',
      Source.resolve_entities resolver (s, w) = (Ok tt, (s1, w')) /\
      Source.last_resolved s1 = Source.last_resolved s /\
      dict_keys (Source.countries_data s1) = dict_keys (Source.countries_data s) /\
      Source.all_entities s1 = map (entity_after resolver) (Source.all_entities s) /\
      Forall (fun e => entity_resolved e = true) (Source.all_entities s1) /\
      Source.resolve_all resolver (s, w)
      = (Ok tt, (Source.set_last_resolved (Some (clock w')) s1, w')) /\
      Source.last_resolved (Source.set_last_resolved (Some (clock w')) s1) <> None /\
      Source.all_entities (Source.set_last_resolved (Some (clock w')) s1)
      = Source.all_entities s1 /\
      clock w' = (clock w + 2 * Z.of_nat (length (all_hosts s)))%Z /\
      forall schedule : list nat,
        let running := run_schedule resolver schedule (spawn (all_hosts s)) w in
        (clock (snd running) <= clock w')%Z /\
        (clock (snd running) = clock w' <-> forallb returned (fst running) = true).
Proof.
  intros resolver s w.
  exists (source_after resolver s), (world_after_source resolver s w).
  split; [apply Source_resolve_entities_closed|].
  split; [reflexivity|].
  split.
  { unfold source_after, dict_keys, map_values;
      cbn [Source.countries_data Source.set_countries_data].
    rewrite map_map. reflexivity. }
  split; [apply all_entities_source_after|].
  split.
  { rewrite all_entities_source_after. apply Forall_forall. intros e Hin.
    apply in_map_iff in Hin. destruct Hin as (e0 & <- & _).
    apply entity_after_resolved. }
  split.
  { unfold Source.resolve_all, bind.
    rewrite Source_resolve_entities_closed. reflexivity. }
  split; [discriminate|].
  split; [reflexivity|].
  split; [apply clock_after_source|].
  intros schedule running.
  pose proof (run_schedule_clock resolver schedule (spawn (all_hosts s)) w) as Hc.
  fold running in Hc. rewrite pool_awaits_spawn in Hc.
  destruct (pool_awaits_returned (fst running)) as [Hpos Hiff].
  rewrite clock_after_source, <- Hiff.
  split; [lia | split; lia].
Qed.

(** * Entity.from_json *)

(** C8. [Entity.from_json] succeeds exactly on the records that have the
    keys "main_host", "country" and "category", and raises [KeyError] for
    the first of them (in that order) that is missing. The entity built
    takes its country, category and main host from those keys, its name
    from the key "name" when present and from the main host's name
    otherwise, and its additional hosts from the key "additional_hosts"
    when present and none otherwise; every flag starts unknown. *)
Theorem Entity_from_json_fields :
  forall (json_entity : Entity.json),
    match Entity.json_main_host json_entity,
          Entity.json_country json_entity,
          Entity.json_category json_entity with
    | None, _, _ => Entity.from_json json_entity = Raise (KeyError "main_host")
    | Some _, None, _ => Entity.from_json json_entity = Raise (KeyError "country")
    | Some _, Some _, None => Entity.from_json json_entity = Raise (KeyError "category")
    | Some main_host, Some country, Some category =>
        exists e,
          Entity.from_json json_entity = Ok e /\
          Entity.country e = country /\
          Entity.category e = category /\
          Entity.main_host e = Host.new main_host /\
          Host.name (Entity.main_host e) = main_host /\
          Entity.name e
          = match Entity.json_name json_entity with
            | Some name => name
            | None => Host.name (Entity.main_host e)
            end /\
          Entity.additional_hosts e
          = match Entity.json_additional_hosts json_entity with
            | Some hosts => map Host.new hosts
            | None => []
            end /\
          Entity.ipv6_ready e = None
    end.
Proof.
  intros [c k n mh ah]; simpl.
  destruct mh as [mh|]; [|reflexivity].
  destruct c as [c|]; [|reflexivity].
  destruct k as [k|]; [|reflexivity].
  unfold Entity.from_json; simpl.
  eexists; split; [reflexivity|].
  cbn [Entity.country Entity.category Entity.main_host Entity.name
       Entity.additional_hosts Entity.ipv6_ready Entity.json_name
       Entity.json_additional_hosts Host.name Host.new].
  repeat split. now destruct ah.
Qed.

(** * CountryData.country_name *)

(** C9. For the code "xx" [country_name] is "Validation Test" whatever the
    country database answers; for any other code it is the name of the
    record the database returns, it raises what the database raises, and it
    raises when the database has no record for the code. *)
Theorem CountryData_country_name_lookup :
  forall (self : CountryData.t),
    (CountryData.country_code self = "xx" ->
     forall countries_get : pycountry_countries,
       CountryData.country_name countries_get self = Ok "Validation Test") /\
    (CountryData.country_code self <> "xx" ->
     forall countries_get : pycountry_countries,
       match countries_get (CountryData.country_code self) with
       | Ok (Some c) =>
           CountryData.country_name countries_get self = Ok (country_record_name c)
       | Ok None =>
           CountryData.country_name countries_get self = Raise (AttributeError "name")
       | Raise e => CountryData.country_name countries_get self = Raise e
       end).
Proof.
  intros self. unfold CountryData.country_name. split.
  - intros -> countries_get. reflexivity.
  - intros Hne countries_get.
    destruct (String.eqb_spec (CountryData.country_code self) "xx") as [Heq|_];
      [contradiction|].
    destruct (countries_get (CountryData.country_code self)) as [[c|]|e]; reflexivity.
Qed.

(** * Category counts *)

Lemma fold_left_add_ones {X} (l : list X) (a : Z) :
  fold_left Z.add (map (fun _ => 1%Z) l) a = (a + Z.of_nat (length l))%Z.
Proof.
  revert a. induction l as [|x l IH]; intros a; simpl fold_left.
  - simpl. lia.
  - rewrite IH. simpl length. lia.
Qed.

Lemma ready_count_length (c : Category.t) :
  Category.ready_count c
  = Z.of_nat (length (filter (fun entity => truthy (Entity.ipv6_ready entity))
                             (Category.entities c))).
Proof. unfold Category.ready_count. now rewrite fold_left_add_ones. Qed.

Lemma ready_count_bounds (c : Category.t) :
  (0 <= Category.ready_count c <= Category.total_count c)%Z.
Proof.
  rewrite ready_count_length. unfold Category.total_count.
  pose proof (filter_length_le (fun entity => truthy (Entity.ipv6_ready entity))
                               (Category.entities c)).
  lia.
Qed.

(** C10. In every category the ready count lies between 0 and the total
    count. An entity whose [ipv6_ready] is unknown is not counted:
    registering one leaves the ready count as it was, and a category whose
    entities are all unresolved has a ready count of 0. *)
Theorem Category_ready_count_bounds :
  forall (c : Category.t),
    (0 <= Category.ready_count c <= Category.total_count c)%Z /\
    (forall e, Entity.ipv6_ready e = None ->
               Category.ready_count (Category.register e c) = Category.ready_count c /\
               Category.total_count (Category.register e c)
               = (Category.total_count c + 1)%Z) /\
    (Forall (fun e => Entity.ipv6_ready e = None) (Category.entities c) ->
     Category.ready_count c = 0%Z).
Proof.
  intros c. split; [apply ready_count_bounds|]. split.
  - intros e Hnone. rewrite !ready_count_length. unfold Category.total_count.
    unfold Category.register; cbn [Category.entities].
    rewrite filter_app, !length_app. simpl. rewrite Hnone. simpl. lia.
  - intros Hall. rewrite ready_count_length.
    induction (Category.entities c) as [|e es IH]; [reflexivity|].
    inversion Hall as [|? ? He Hes]; subst. simpl. rewrite He. simpl.
    now apply IH.
Qed.

(** * Registration *)

Section Dict.

Context {V : Type}.
Implicit Types (d : dict V) (k : string) (v : V).

Lemma dict_get_set_same k v d : dict_get k (dict_set k v d) = Some v.
Proof.
  induction d as [|[k' v'] d IH]; simpl.
  - now rewrite String.eqb_refl.
  - destruct (String.eqb k k') eqn:E; simpl; rewrite E; [reflexivity | exact IH].
Qed.

Lemma dict_get_set_other k k' v d :
  k' <> k -> dict_get k' (dict_set k v d) = dict_get k' d.
Proof.
  intros Hne. induction d as [|[k0 v0] d IH]; simpl.
  - destruct (String.eqb_spec k' k); [contradiction | reflexivity].
  - destruct (String.eqb_spec k k0) as [->|Hk]; simpl.
    + destruct (String.eqb_spec k' k0); [contradiction | reflexivity].
    + destruct (String.eqb k' k0); [reflexivity | exact IH].
Qed.

Lemma dict_keys_set k v d :
  dict_keys (dict_set k v d)
  = dict_keys d ++ (if dict_contains k d then [] else [k]).
Proof.
  unfold dict_contains. induction d as [|[k' v'] d IH]; simpl; [reflexivity|].
  destruct (String.eqb k k') eqn:E; simpl.
  - now rewrite app_nil_r.
  - now rewrite IH.
Qed.

Lemma dict_keys_set_extends k v d :
  extends_list (dict_keys d) (dict_keys (dict_set k v d)).
Proof. rewrite dict_keys_set. eexists; reflexivity. Qed.

End Dict.

Lemma extends_list_refl {X} (l : list X) : extends_list l l.
Proof. exists []. now rewrite app_nil_r. Qed.

Lemma extends_list_trans {X} (l1 l2 l3 : list X) :
  extends_list l1 l2 -> extends_list l2 l3 -> extends_list l1 l3.
Proof.
  intros [a ->] [b ->]. exists (a ++ b). now rewrite app_assoc.
Qed.

Lemma CountryData_register_entities_in (e : Entity.t) (c : CountryData.t) (key : string) :
  CountryData.entities_in key (CountryData.register e c)
  = CountryData.entities_in key c
    ++ (if String.eqb (Entity.category e) key then [e] else []).
Proof.
  unfold CountryData.entities_in, CountryData.register;
    cbn [CountryData.categories CountryData.set_categories].
  destruct (String.eqb_spec (Entity.category e) key) as [<-|Hne].
  - rewrite dict_get_set_same.
    now destruct (dict_get (Entity.category e) (CountryData.categories c)).
  - rewrite dict_get_set_other by congruence. now rewrite app_nil_r.
Qed.

Lemma CountryData_register_extends (e : Entity.t) (c : CountryData.t) :
  country_extends c (CountryData.register e c).
Proof.
  unfold country_extends, CountryData.register;
    cbn [CountryData.categories CountryData.set_categories CountryData.country_code].
  split; [reflexivity|]. split; [apply dict_keys_set_extends|].
  intros key cat Hget.
  destruct (String.eqb_spec key (Entity.category e)) as [->|Hne].
  - rewrite dict_get_set_same, Hget. eexists; split; [reflexivity|].
    split; [reflexivity|]. exists [e]. reflexivity.
  - rewrite dict_get_set_other by exact Hne.
    exists cat. split; [exact Hget|]. split; [reflexivity | apply extends_list_refl].
Qed.

Lemma country_extends_refl (c : CountryData.t) : country_extends c c.
Proof.
  split; [reflexivity|]. split; [apply extends_list_refl|].
  intros key cat Hget. exists cat. split; [exact Hget|].
  split; [reflexivity | apply extends_list_refl].
Qed.

Lemma country_extends_trans (c1 c2 c3 : CountryData.t) :
  country_extends c1 c2 -> country_extends c2 c3 -> country_extends c1 c3.
Proof.
  intros (Hc12 & Hk12 & H12) (Hc23 & Hk23 & H23).
  split; [congruence|]. split; [eapply extends_list_trans; eassumption|].
  intros key cat Hget.
  destruct (H12 key cat Hget) as (cat2 & Hget2 & Htag2 & Hent2).
  destruct (H23 key cat2 Hget2) as (cat3 & Hget3 & Htag3 & Hent3).
  exists cat3. split; [exact Hget3|]. split; [congruence|].
  eapply extends_list_trans; eassumption.
Qed.

Lemma Source_register_entities_at (e : Entity.t) (s : Source.t) (country category : string) :
  Source.entities_at country category (Source.register e s)
  = Source.entities_at country category s
    ++ (if registered_at country category e then [e] else []).
Proof.
  unfold Source.entities_at, Source.register, registered_at;
    cbn [Source.countries_data Source.set_countries_data].
  destruct (String.eqb_spec (Entity.country e) country) as [<-|Hne]; simpl.
  - rewrite dict_get_set_same, CountryData_register_entities_in.
    destruct (dict_get (Entity.country e) (Source.countries_data s)); reflexivity.
  - rewrite dict_get_set_other by congruence. now rewrite app_nil_r.
Qed.

Lemma Source_register_extends (e : Entity.t) (s : Source.t) :
  source_extends s (Source.register e s).
Proof.
  unfold source_extends, Source.register;
    cbn [Source.countries_data Source.set_countries_data].
  split; [apply dict_keys_set_extends|].
  intros key c Hget.
  destruct (String.eqb_spec key (Entity.country e)) as [->|Hne].
  - rewrite dict_get_set_same, Hget. eexists; split; [reflexivity|].
    apply CountryData_register_extends.
  - rewrite dict_get_set_other by exact Hne.
    exists c. split; [exact Hget | apply country_extends_refl].
Qed.

Lemma source_extends_refl (s : Source.t) : source_extends s s.
Proof.
  split; [apply extends_list_refl|].
  intros key c Hget. exists c. split; [exact Hget | apply country_extends_refl].
Qed.

Lemma source_extends_trans (s1 s2 s3 : Source.t) :
  source_extends s1 s2 -> source_extends s2 s3 -> source_extends s1 s3.
Proof.
  intros (Hk12 & H12) (Hk23 & H23).
  split; [eapply extends_list_trans; eassumption|].
  intros key c Hget.
  destruct (H12 key c Hget) as (c2 & Hget2 & Hext2).
  destruct (H23 key c2 Hget2) as (c3 & Hget3 & Hext3).
  exists c3. split; [exact Hget3 | eapply country_extends_trans; eassumption].
Qed.

Lemma register_all_entities_at (es : list Entity.t) (s : Source.t)
    (country category : string) :
  Source.entities_at country category (register_all es s)
  = Source.entities_at country category s ++ filter (registered_at country category) es.
Proof.
  unfold register_all. revert s.
  induction es as [|e es IH]; intros s; simpl.
  - now rewrite app_nil_r.
  - rewrite IH, Source_register_entities_at, <- app_assoc.
    now destruct (registered_at country category e).
Qed.

Lemma register_all_extends (es : list Entity.t) (s : Source.t) :
  source_extends s (register_all es s).
Proof.
  unfold register_all. revert s.
  induction es as [|e es IH]; intros s; simpl; [apply source_extends_refl|].
  eapply source_extends_trans; [apply Source_register_extends | apply IH].
Qed.

Lemma extend_from_json_state (json_entities : list Entity.json) (s : Source.t) :
  snd (Source.extend_from_json json_entities s)
  = register_all (built_entities json_entities) s.
Proof.
  revert s. induction json_entities as [|j js IH]; intros s; simpl; [reflexivity|].
  destruct (Entity.from_json j) as [e|err]; simpl; [|reflexivity].
  unfold bind, modify; simpl. rewrite <- IH.
  now destruct (Source.extend_from_json js (Source.register e s)) as [[|] ?].
Qed.

Lemma extend_from_json_outcome (json_entities : list Entity.json) (s : Source.t) :
  fst (Source.extend_from_json json_entities s) = Ok tt
  <-> length (built_entities json_entities) = length json_entities.
Proof.
  revert s. induction json_entities as [|j js IH]; intros s; simpl; [tauto|].
  destruct (Entity.from_json j) as [e|err]; simpl.
  - unfold bind, modify; simpl. specialize (IH (Source.register e s)).
    destruct (Source.extend_from_json js (Source.register e s)) as [[[]|err] s1];
      simpl in *.
    + split; [intros _; f_equal; now apply IH | reflexivity].
    + split; [discriminate|]. intros [= Hlen]. now apply IH in Hlen.
  - unfold raise; simpl. split; discriminate.
Qed.

Lemma source_extends_set (code : string) (c c' : CountryData.t) (s : Source.t) :
  dict_get code (Source.countries_data s) = Some c ->
  country_extends c c' ->
  source_extends s
    (Source.set_countries_data (dict_set code c' (Source.countries_data s)) s).
Proof.
  intros Hget Hext. unfold source_extends;
    cbn [Source.countries_data Source.set_countries_data].
  split; [apply dict_keys_set_extends|].
  intros key c0 Hget0.
  destruct (String.eqb_spec key code) as [->|Hne].
  - rewrite dict_get_set_same. exists c'. split; [reflexivity|]. congruence.
  - rewrite dict_get_set_other by exact Hne.
    exists c0. split; [exact Hget0 | apply country_extends_refl].
Qed.

Lemma country_extends_set (tag : string) (cat : Category.t) (e : Entity.t)
    (c : CountryData.t) :
  dict_get tag (CountryData.categories c) = Some cat ->
  country_extends c
    (CountryData.set_categories
       (dict_set tag (Category.register e cat) (CountryData.categories c)) c).
Proof.
  intros Hget. unfold country_extends;
    cbn [CountryData.categories CountryData.set_categories CountryData.country_code].
  split; [reflexivity|]. split; [apply dict_keys_set_extends|].
  intros key cat0 Hget0.
  destruct (String.eqb_spec key tag) as [->|Hne].
  - rewrite dict_get_set_same. eexists; split; [reflexivity|].
    assert (cat0 = cat) by congruence. subst cat0.
    split; [reflexivity|]. exists [e]. reflexivity.
  - rewrite dict_get_set_other by exact Hne.
    exists cat0. split; [exact Hget0|]. split; [reflexivity | apply extends_list_refl].
Qed.

Lemma run_call_extends (c : call) (s : Source.t) : source_extends s (run_call c s).
Proof.
  destruct c as [js | code e | code tag e]; cbn [run_call].
  - rewrite extend_from_json_state. apply register_all_extends.
  - destruct (dict_get code (Source.countries_data s)) as [country|] eqn:Hget;
      [|apply source_extends_refl].
    apply source_extends_set with (c := country);
      [exact Hget | apply CountryData_register_extends].
  - destruct (dict_get code (Source.countries_data s)) as [country|] eqn:Hget;
      [|apply source_extends_refl].
    destruct (dict_get tag (CountryData.categories country)) as [cat|] eqn:Hcat;
      [|apply source_extends_refl].
    apply source_extends_set with (c := country);
      [exact Hget | now apply country_extends_set].
Qed.

Lemma run_call_entities_at (c : call) (s : Source.t) (country category : string) :
  Source.entities_at country category (run_call c s)
  = Source.entities_at country category s ++ appended_by c s country category.
Proof.
  destruct c as [js | code e | code tag e]; cbn [run_call appended_by].
  - rewrite extend_from_json_state. apply register_all_entities_at.
  - unfold Source.entities_at, dict_contains.
    destruct (dict_get code (Source.countries_data s)) as [c|] eqn:Hget.
    + cbn [Source.countries_data Source.set_countries_data].
      rewrite andb_true_r.
      destruct (String.eqb_spec code country) as [<-|Hne]; cbn [andb].
      * rewrite dict_get_set_same, Hget. apply CountryData_register_entities_in.
      * rewrite dict_get_set_other by congruence. now rewrite app_nil_r.
    + rewrite andb_false_r. now rewrite app_nil_r.
  - unfold Source.entities_at, dict_contains.
    destruct (dict_get code (Source.countries_data s)) as [c|] eqn:Hget;
      [|rewrite andb_false_r; now rewrite app_nil_r].
    destruct (dict_get tag (CountryData.categories c)) as [cat|] eqn:Hcat;
      [|rewrite andb_false_r; now rewrite app_nil_r].
    cbn [Source.countries_data Source.set_countries_data]. rewrite andb_true_r.
    destruct (String.eqb_spec code country) as [<-|Hne]; cbn [andb].
    + rewrite dict_get_set_same, Hget. unfold CountryData.entities_in.
      cbn [CountryData.categories CountryData.set_categories].
      destruct (String.eqb_spec tag category) as [<-|Hk].
      * rewrite dict_get_set_same, Hcat. reflexivity.
      * rewrite dict_get_set_other by congruence. now rewrite app_nil_r.
    + rewrite dict_get_set_other by congruence. now rewrite app_nil_r.
Qed.

Lemma run_calls_entities_at (calls : list call) (s : Source.t)
    (country category : string) :
  Source.entities_at country category (run_calls calls s)
  = Source.entities_at country category s ++ appended calls s country category.
Proof.
  unfold run_calls. revert s.
  induction calls as [|c calls IH]; intros s; cbn [fold_left appended].
  - now rewrite app_nil_r.
  - now rewrite IH, run_call_entities_at, app_assoc.
Qed.

Lemma run_calls_extends (calls : list call) (s : Source.t) :
  source_extends s (run_calls calls s).
Proof.
  unfold run_calls. revert s.
  induction calls as [|c calls IH]; intros s; cbn [fold_left];
    [apply source_extends_refl|].
  eapply source_extends_trans; [apply run_call_extends | apply IH].
Qed.

Lemma appended_extend_calls (batches : list (list Entity.json)) (s : Source.t)
    (country category : string) :
  appended (map ExtendFromJson batches) s country category
  = filter (registered_at country category) (flat_map built_entities batches).
Proof.
  revert s. induction batches as [|js batches IH]; intros s;
    cbn [map appended flat_map appended_by]; [reflexivity|].
  now rewrite IH, filter_app.
Qed.

(** C7. Registration keeps what is there and adds at the end. After any
    sequence of calls to [extend_from_json] and to the [register] methods
    of the countries and categories of a source, the entities under each
    country code and category tag are those that were there, in their
    order, followed by the entities that the calls appended there, in the
    order of the calls (for [extend_from_json]: the entities built from the
    records for that country and category, in the order of the records);
    every country and category that existed is still under its key at its
    place, with the same code or tag, extended and not replaced.
    [CountryData.register] and [Category.register] append in the same
    way. *)
Theorem registration_preserves_order :
  forall (calls : list call) (s : Source.t),
    (forall country category,
        Source.entities_at country category (run_calls calls s)
        = Source.entities_at country category s
          ++ appended calls s country category) /\
    source_extends s (run_calls calls s) /\
    (forall (batches : list (list Entity.json)) s0 country category,
        Source.entities_at country category (run_calls (map ExtendFromJson batches) s0)
        = Source.entities_at country category s0
          ++ filter (registered_at country category)
                    (flat_map built_entities batches)) /\
    (forall json_entities s0,
        fst (Source.extend_from_json json_entities s0) = Ok tt
        <-> length (built_entities json_entities) = length json_entities) /\
    (forall e c key,
        CountryData.entities_in key (CountryData.register e c)
        = CountryData.entities_in key c
          ++ (if String.eqb (Entity.category e) key then [e] else []) /\
        country_extends c (CountryData.register e c)) /\
    (forall e cat,
        Category.entities (Category.register e cat) = Category.entities cat ++ [e]).
Proof.
  intros calls s.
  split; [intros country category; apply run_calls_entities_at|].
  split; [apply run_calls_extends|].
  split.
  { intros batches s0 country category.
    now rewrite run_calls_entities_at, appended_extend_calls. }
  split; [intros js s0; apply extend_from_json_outcome|].
  split.
  { intros e c key. split;
      [apply CountryData_register_entities_in | apply CountryData_register_extends]. }
  intros e cat. reflexivity.
Qed.

(** * Registration: invariants, failure, composition *)

Section DictInvariants.

Context {V : Type}.
Implicit Types (d : dict V) (k : string) (v : V).

Lemma dict_get_In k v d : dict_get k d = Some v -> In (k, v) d.
Proof.
  induction d as [|[k' v'] d IH]; simpl; [discriminate|].
  destruct (String.eqb_spec k k') as [->|_].
  - intros [= ->]. now left.
  - intros H. right. now apply IH.
Qed.

Lemma dict_get_None_keys k d : dict_get k d = None -> ~ In k (dict_keys d).
Proof.
  induction d as [|[k' v'] d IH]; simpl; [tauto|].
  destruct (String.eqb_spec k k') as [->|Hne]; [discriminate|].
  intros H [Heq|Hin]; [congruence | now apply IH].
Qed.

Lemma dict_set_NoDup k v d : NoDup (dict_keys d) -> NoDup (dict_keys (dict_set k v d)).
Proof.
  intros Hnd. rewrite dict_keys_set. unfold dict_contains.
  destruct (dict_get k d) eqn:E; [now rewrite app_nil_r|].
  apply NoDup_app; [exact Hnd | repeat constructor; simpl; tauto |].
  intros x Hin [<-|[]]. now apply (dict_get_None_keys _ _ E).
Qed.

Lemma dict_set_Forall (P : string * V -> Prop) k v d :
  Forall P d -> P (k, v) -> Forall P (dict_set k v d).
Proof.
  intros Hall Hkv. induction d as [|[k' v'] d IH]; simpl.
  - now constructor.
  - inversion Hall as [|? ? Hhd Htl]; subst.
    destruct (String.eqb_spec k k') as [<-|_]; constructor; auto.
Qed.

Lemma dict_set_not_nil k v d : dict_set k v d <> [].
Proof.
  destruct d as [|[k' v'] d]; simpl; [discriminate|].
  destruct (String.eqb k k'); discriminate.
Qed.

(** Replacing or adding one value changes the concatenation of what the
    values hold by what that value gained. *)
Lemma flat_map_dict_set {X} (f : V -> list X) k v d (added : list X) :
  Permutation (f v)
              (match dict_get k d with Some v0 => f v0 | None => [] end ++ added) ->
  Permutation (flat_map f (dict_values (dict_set k v d)))
              (flat_map f (dict_values d) ++ added).
Proof.
  unfold dict_values. induction d as [|[k' v'] d IH]; simpl; intros Hf.
  - now rewrite app_nil_r.
  - destruct (String.eqb_spec k k') as [->|Hne]; simpl.
    + rewrite Hf, <- !app_assoc. apply Permutation_app_head, Permutation_app_comm.
    + rewrite <- app_assoc. apply Permutation_app_head. now apply IH.
Qed.

End DictInvariants.

Lemma Category_register_wf (country : string) (e : Entity.t) (c : Category.t) :
  Entity.country e = country ->
  category_wf country (Entity.category e) c \/ c = Category.new (Entity.category e) ->
  category_wf country (Entity.category e) (Category.register e c).
Proof.
  intros Hc Hwf. unfold category_wf, Category.register; cbn [Category.category Category.entities].
  assert (Hlast : Forall (fun e0 => Entity.country e0 = country
                                    /\ Entity.category e0 = Entity.category e) [e])
    by (repeat constructor; assumption).
  destruct Hwf as [(Htag & _ & Hall) | ->].
  - split; [exact Htag|]. split; [now destruct (Category.entities c)|].
    apply Forall_app. split; assumption.
  - split; [reflexivity|]. split; [discriminate | exact Hlast].
Qed.

Lemma CountryData_register_wf (e : Entity.t) (c : CountryData.t) :
  country_wf (Entity.country e) c \/ c = CountryData.new (Entity.country e) ->
  country_wf (Entity.country e) (CountryData.register e c).
Proof.
  intros Hwf.
  assert (Hparts : CountryData.country_code c = Entity.country e
                   /\ NoDup (dict_keys (CountryData.categories c))
                   /\ Forall (fun kv => category_wf (Entity.country e) (fst kv) (snd kv))
                             (CountryData.categories c)).
  { destruct Hwf as [(Hcode & _ & Hnd & Hall) | ->]; [auto|].
    split; [reflexivity|]. split; constructor. }
  destruct Hparts as (Hcode & Hnd & Hall).
  unfold country_wf, CountryData.register;
    cbn [CountryData.country_code CountryData.categories CountryData.set_categories].
  split; [exact Hcode|]. split; [apply dict_set_not_nil|].
  split; [now apply dict_set_NoDup|].
  apply dict_set_Forall; [exact Hall|]. cbn [fst snd].
  apply Category_register_wf; [reflexivity|].
  destruct (dict_get (Entity.category e) (CountryData.categories c)) as [cat|] eqn:E.
  - left. apply dict_get_In in E.
    rewrite Forall_forall in Hall. exact (Hall _ E).
  - now right.
Qed.

Lemma Source_register_wf (e : Entity.t) (s : Source.t) :
  source_wf s -> source_wf (Source.register e s).
Proof.
  intros (Hnd & Hall).
  unfold source_wf, Source.register;
    cbn [Source.countries_data Source.set_countries_data].
  split; [now apply dict_set_NoDup|].
  apply dict_set_Forall; [exact Hall|]. cbn [fst snd].
  apply CountryData_register_wf.
  destruct (dict_get (Entity.country e) (Source.countries_data s)) as [c|] eqn:E.
  - left. apply dict_get_In in E.
    rewrite Forall_forall in Hall. exact (Hall _ E).
  - now right.
Qed.

Lemma register_all_wf (es : list Entity.t) (s : Source.t) :
  source_wf s -> source_wf (register_all es s).
Proof.
  unfold register_all. revert s.
  induction es as [|e es IH]; intros s Hwf; simpl; [exact Hwf|].
  apply IH. now apply Source_register_wf.
Qed.

Lemma Source_new_wf : source_wf Source.new.
Proof. split; constructor. Qed.

Lemma source_wf_categories (s : Source.t) :
  source_wf s ->
  Forall (fun c => Category.entities c <> []) (all_categories s).
Proof.
  intros (_ & Hall). unfold all_categories, dict_values.
  induction (Source.countries_data s) as [|[code c] d IH]; simpl; [constructor|].
  inversion Hall as [|? ? Hc Hd]; subst.
  apply Forall_app. split; [|now apply IH].
  destruct Hc as (_ & _ & _ & Hcats). cbn [fst snd] in Hcats.
  induction (CountryData.categories c) as [|[tag cat] cs IHc]; simpl; [constructor|].
  inversion Hcats as [|? ? Hcat Hcs]; subst.
  constructor; [|now apply IHc]. now destruct Hcat as (_ & Hne & _).
Qed.

Lemma from_json_well_formed (j : Entity.json) :
  json_well_formed j = true -> exists e, Entity.from_json j = Ok e.
Proof.
  destruct j as [c k n mh ah]; unfold json_well_formed, Entity.from_json; simpl.
  destruct mh, c, k; try discriminate. intros _. eexists; reflexivity.
Qed.

Lemma from_json_malformed (j : Entity.json) :
  json_well_formed j = false ->
  exists key, Entity.from_json j = Raise (KeyError key)
              /\ In key ["main_host"; "country"; "category"].
Proof.
  destruct j as [c k n mh ah]; unfold json_well_formed, Entity.from_json; simpl.
  destruct mh; [|intros _; eexists; split; [reflexivity | simpl; tauto]].
  destruct c; [|intros _; eexists; split; [reflexivity | simpl; tauto]].
  destruct k; [discriminate|]. intros _; eexists; split; [reflexivity | simpl; tauto].
Qed.

Lemma extend_from_json_app (a b : list Entity.json) (s : Source.t) :
  Source.extend_from_json (a ++ b) s
  = match Source.extend_from_json a s with
    | (Ok _, s1) => Source.extend_from_json b s1
    | (Raise e, s1) => (Raise e, s1)
    end.
Proof.
  revert s. induction a as [|j a IH]; intros s; cbn [app Source.extend_from_json].
  - reflexivity.
  - destruct (Entity.from_json j) as [e|err]; [|reflexivity].
    unfold bind, modify. apply IH.
Qed.

Lemma extend_from_json_good (good : list Entity.json) (s : Source.t) :
  forallb json_well_formed good = true ->
  exists es,
    map Entity.from_json good = map Ok es /\
    built_entities good = es /\
    Source.extend_from_json good s = (Ok tt, register_all es s).
Proof.
  revert s. induction good as [|j good IH]; intros s Hall; cbn [forallb] in Hall.
  - exists []. repeat split.
  - apply andb_true_iff in Hall. destruct Hall as [Hj Hgood].
    destruct (from_json_well_formed j Hj) as [e He].
    destruct (IH (Source.register e s) Hgood) as (es & Hmap & Hbuilt & Hrun).
    exists (e :: es). cbn [map built_entities Source.extend_from_json].
    rewrite He, Hmap, Hbuilt. split; [reflexivity|]. split; [reflexivity|].
    unfold bind, modify. exact Hrun.
Qed.

(** X1. [extend_from_json] is not atomic: on a list whose first record
    without a required key comes after some well-formed ones, it raises
    [KeyError] for a required key, the entities of the records before the
    malformed one stay registered, in order, and no later record is. *)
Theorem extend_from_json_stops_at_first_malformed :
  forall (good : list Entity.json) (bad : Entity.json) (rest : list Entity.json)
         (s : Source.t),
    forallb json_well_formed good = true ->
    json_well_formed bad = false ->
    exists key es,
      In key ["main_host"; "country"; "category"] /\
      map Entity.from_json good = map Ok es /\
      Source.extend_from_json (good ++ bad :: rest) s
      = (Raise (KeyError key), register_all es s) /\
      forall country category,
        Source.entities_at country category
          (snd (Source.extend_from_json (good ++ bad :: rest) s))
        = Source.entities_at country category s
          ++ filter (registered_at country category) es.
Proof.
  intros good bad rest s Hgood Hbad.
  destruct (from_json_malformed bad Hbad) as (key & Hkey & Hin).
  destruct (extend_from_json_good good s Hgood) as (es & Hmap & _ & Hrun).
  assert (Hall : Source.extend_from_json (good ++ bad :: rest) s
                 = (Raise (KeyError key), register_all es s)).
  { rewrite extend_from_json_app, Hrun. cbn [Source.extend_from_json].
    now rewrite Hkey. }
  exists key, es. split; [exact Hin|]. split; [exact Hmap|]. split; [exact Hall|].
  intros country category. rewrite Hall. apply register_all_entities_at.
Qed.

(** X2. On records typed as the input format has them (the values that
    are present are strings, and the additional hosts a list of strings:
    the type [Entity.json]), [extend_from_json] returns normally exactly
    when every record has the three required keys, and two calls in a row
    do what one call on the concatenated records does: when the first list
    is accepted the second call continues from the state the first one
    left, and when it is not the concatenated call stops where the first
    one did. *)
Theorem extend_from_json_composes :
  forall (a b : list Entity.json) (s : Source.t),
    (fst (Source.extend_from_json a s) = Ok tt <-> forallb json_well_formed a = true) /\
    match fst (Source.extend_from_json a s) with
    | Ok _ =>
        Source.extend_from_json (a ++ b) s
        = Source.extend_from_json b (snd (Source.extend_from_json a s))
    | Raise _ => Source.extend_from_json (a ++ b) s = Source.extend_from_json a s
    end.
Proof.
  intros a b s. split.
  - split.
    + revert s. induction a as [|j a IH]; intros s; [reflexivity|].
      cbn [Source.extend_from_json forallb].
      destruct (json_well_formed j) eqn:Hj.
      * destruct (from_json_well_formed j Hj) as [e He]. rewrite He.
        unfold bind, modify. apply IH.
      * destruct (from_json_malformed j Hj) as (key & Hkey & _). rewrite Hkey.
        discriminate.
    + intros Hall. destruct (extend_from_json_good a s Hall) as (es & _ & _ & Hrun).
      now rewrite Hrun.
  - rewrite extend_from_json_app.
    now destruct (Source.extend_from_json a s) as [[[]|e] s1].
Qed.

Lemma run_extend_calls_wf (batches : list (list Entity.json)) (s : Source.t) :
  source_wf s -> source_wf (run_calls (map ExtendFromJson batches) s).
Proof.
  unfold run_calls. revert s.
  induction batches as [|js batches IH]; intros s Hwf; cbn [map fold_left];
    [exact Hwf|].
  apply IH. cbn [run_call]. rewrite extend_from_json_state. now apply register_all_wf.
Qed.


Lemma CountryData_register_flat (e : Entity.t) (c : CountryData.t) :
  Permutation
    (flat_map Category.entities
       (dict_values (CountryData.categories (CountryData.register e c))))
    (flat_map Category.entities (dict_values (CountryData.categories c)) ++ [e]).
Proof.
  unfold CountryData.register; cbn [CountryData.categories CountryData.set_categories].
  apply flat_map_dict_set.
  now destruct (dict_get (Entity.category e) (CountryData.categories c)).
Qed.

Lemma Source_register_all_entities (e : Entity.t) (s : Source.t) :
  Permutation (Source.all_entities (Source.register e s)) (Source.all_entities s ++ [e]).
Proof.
  unfold Source.all_entities, Source.register;
    cbn [Source.countries_data Source.set_countries_data].
  apply (flat_map_dict_set
           (fun country : CountryData.t =>
              flat_map Category.entities (dict_values (CountryData.categories country)))).
  destruct (dict_get (Entity.country e) (Source.countries_data s)) as [c|];
    apply CountryData_register_flat.
Qed.

Lemma register_all_all_entities (es : list Entity.t) (s : Source.t) :
  Permutation (Source.all_entities (register_all es s)) (Source.all_entities s ++ es).
Proof.
  unfold register_all. revert s.
  induction es as [|e es IH]; intros s; simpl; [now rewrite app_nil_r|].
  rewrite IH, Source_register_all_entities, <- app_assoc. reflexivity.
Qed.

(** X5. Registration neither loses nor duplicates an entity: after
    [extend_from_json] the entities of the whole tree are those it held
    before together with the entities built from the records, each once;
    when every record has its required keys the tree has grown by exactly
    one entity per record. *)
Theorem extend_from_json_conserves_entities :
  forall (json_entities : list Entity.json) (s : Source.t),
    Permutation
      (Source.all_entities (snd (Source.extend_from_json json_entities s)))
      (Source.all_entities s ++ built_entities json_entities) /\
    (forallb json_well_formed json_entities = true ->
     length (Source.all_entities (snd (Source.extend_from_json json_entities s)))
     = (length (Source.all_entities s) + length json_entities)%nat).
Proof.
  intros js s.
  assert (Hp : Permutation
                 (Source.all_entities (snd (Source.extend_from_json js s)))
                 (Source.all_entities s ++ built_entities js)).
  { rewrite extend_from_json_state. apply register_all_all_entities. }
  split; [exact Hp|].
  intros Hall. rewrite (Permutation_length Hp), length_app.
  destruct (extend_from_json_good js s Hall) as (es & Hmap & Hbuilt & _).
  rewrite Hbuilt. f_equal.
  rewrite <- (length_map Ok es), <- Hmap. apply length_map.
Qed.

(** * Resolution: repetition, counters, structure *)

Lemma host_after_idem (resolver : DNSResolver) (h : Host.t) :
  host_after resolver (host_after resolver h) = host_after resolver h.
Proof. reflexivity. Qed.

Lemma entity_after_idem (resolver : DNSResolver) (e : Entity.t) :
  entity_after resolver (entity_after resolver e) = entity_after resolver e.
Proof.
  unfold entity_after;
    cbn [Entity.main_host Entity.additional_hosts Entity.country Entity.category
         Entity.name].
  rewrite map_map.
  rewrite (map_ext (fun x => host_after resolver (host_after resolver x))
                   (host_after resolver)) by (intros; apply host_after_idem).
  reflexivity.
Qed.

Lemma map_values_idem {V} (f : V -> V) (d : dict V) :
  (forall v, f (f v) = f v) -> map_values f (map_values f d) = map_values f d.
Proof.
  intros Hf. unfold map_values. rewrite map_map. apply map_ext.
  intros [k v]; cbn [fst snd]. now rewrite Hf.
Qed.

Lemma source_after_idem (resolver : DNSResolver) (s : Source.t) :
  source_after resolver (source_after resolver s) = source_after resolver s.
Proof.
  unfold source_after; cbn [Source.countries_data Source.set_countries_data Source.last_resolved].
  rewrite map_values_idem; [reflexivity|].
  intros c. unfold country_after;
    cbn [CountryData.categories CountryData.set_categories CountryData.country_code].
  rewrite map_values_idem; [reflexivity|].
  intros cat. unfold category_after;
    cbn [Category.entities Category.set_entities Category.category].
  rewrite map_map.
  rewrite (map_ext (fun x => entity_after resolver (entity_after resolver x))
                   (entity_after resolver)) by (intros; apply entity_after_idem).
  reflexivity.
Qed.

Lemma Source_resolve_all_closed (resolver : DNSResolver) (s : Source.t) (w : World) :
  Source.resolve_all resolver (s, w)
  = (Ok tt, (Source.set_last_resolved (Some (clock (world_after_source resolver s w)))
               (source_after resolver s),
             world_after_source resolver s w)).
Proof.
  unfold Source.resolve_all, bind. now rewrite Source_resolve_entities_closed.
Qed.

Lemma source_after_last_resolved (resolver : DNSResolver) (v : option Z) (s : Source.t) :
  source_after resolver (Source.set_last_resolved v s)
  = Source.set_last_resolved v (source_after resolver s).
Proof. reflexivity. Qed.

(** X6. [resolve_all] can be run again. With the same DNS answers a second
    run leaves every country, category, entity and host of the resolved
    tree exactly as the first run left it; it only reads the clock again,
    after a gather that takes as long as the first, and counts every query
    a second time. *)
Theorem resolve_all_repeatable :
  forall (resolver : DNSResolver) (s : Source.t) (w : World),
    exists s1 w1,
      Source.resolve_all resolver (s, w) = (Ok tt, (s1, w1)) /\
      forall w2 : World,
        exists w3,
          Source.resolve_all resolver (s1, w2)
          = (Ok tt, (Source.set_last_resolved (Some (clock w3)) s1, w3)) /\
          Source.countries_data (Source.set_last_resolved (Some (clock w3)) s1)
          = Source.countries_data s1 /\
          (clock w3 - clock w2 = clock w1 - clock w)%Z /\
          forall k,
            (count_of k (metrics w3) + count_of k (metrics w)
             = count_of k (metrics w2) + count_of k (metrics w1))%N.
Proof.
  intros resolver s w.
  exists (Source.set_last_resolved (Some (clock (world_after_source resolver s w)))
            (source_after resolver s)),
    (world_after_source resolver s w).
  split; [apply Source_resolve_all_closed|].
  intros w2.
  exists (world_after_source resolver
            (Source.set_last_resolved (Some (clock (world_after_source resolver s w)))
               (source_after resolver s)) w2).
  assert (Hh : all_hosts (Source.set_last_resolved
                            (Some (clock (world_after_source resolver s w)))
                            (source_after resolver s))
               = map (host_after resolver) (all_hosts s))
    by apply all_hosts_source_after.
  split.
  - rewrite Source_resolve_all_closed, source_after_last_resolved, source_after_idem.
    reflexivity.
  - split; [reflexivity|]. split.
    + rewrite (clock_after_source resolver _ w2), Hh, length_map, clock_after_source.
      lia.
    + intros k. rewrite !count_after_source.
      rewrite Hh, map_map.
      rewrite (map_ext (fun x => host_counts resolver k (host_after resolver x))
                       (host_counts resolver k)) by reflexivity.
      lia.
Qed.

Lemma sum_N_const_one {X} (c : X -> N) (xs : list X) :
  (forall x, c x = 1%N) -> sum_N (map c xs) = N.of_nat (length xs).
Proof.
  intros Hc. induction xs as [|x xs IH]; [reflexivity|].
  cbn [map length]. rewrite sum_N_cons, Hc, IH. lia.
Qed.

Lemma sum_N_plus {X} (c1 c2 : X -> N) (xs : list X) :
  sum_N (map (fun x => (c1 x + c2 x)%N) xs)
  = (sum_N (map c1 xs) + sum_N (map c2 xs))%N.
Proof.
  induction xs as [|x xs IH]; [reflexivity|].
  cbn [map]. rewrite !sum_N_cons, IH. lia.
Qed.

Lemma sum_N_indicator {X} (p : X -> bool) (xs : list X) :
  sum_N (map (fun x => if p x then 1%N else 0%N) xs)
  = N.of_nat (length (filter p xs)).
Proof.
  induction xs as [|x xs IH]; [reflexivity|].
  cbn [map filter]. rewrite sum_N_cons, IH. destruct (p x); cbn [length]; lia.
Qed.

Lemma sum_N_le {X} (c1 c2 : X -> N) (xs : list X) :
  (forall x, (c1 x <= c2 x)%N) -> (sum_N (map c1 xs) <= sum_N (map c2 xs))%N.
Proof.
  intros Hc. induction xs as [|x xs IH]; [reflexivity|].
  cbn [map]. rewrite !sum_N_cons. specialize (Hc x). lia.
Qed.

(** X7. [resolve_all] sends exactly one A query and one AAAA query per host
    of the tree and counts each answer once: the IPv4 success and failure
    counters grow together by the number of hosts, and so do the IPv6
    ones; no counter decreases. *)
Theorem resolve_all_counts_every_query_once :
  forall (resolver : DNSResolver) (s : Source.t) (w : World),
    exists s1 w1,
      Source.resolve_all resolver (s, w) = (Ok tt, (s1, w1)) /\
      (ipv4_resolution_success (metrics w1) + ipv4_resolution_failure (metrics w1)
       = ipv4_resolution_success (metrics w) + ipv4_resolution_failure (metrics w)
         + N.of_nat (length (all_hosts s)))%N /\
      (ipv6_resolution_success (metrics w1) + ipv6_resolution_failure (metrics w1)
       = ipv6_resolution_success (metrics w) + ipv6_resolution_failure (metrics w)
         + N.of_nat (length (all_hosts s)))%N /\
      (forall k, (count_of k (metrics w) <= count_of k (metrics w1))%N) /\
      length (all_hosts s1) = length (all_hosts s).
Proof.
  intros resolver s w.
  exists (Source.set_last_resolved (Some (clock (world_after_source resolver s w)))
            (source_after resolver s)),
    (world_after_source resolver s w).
  split; [apply Source_resolve_all_closed|].
  pose proof (count_after_source resolver Ipv4Success s w) as H4s.
  pose proof (count_after_source resolver Ipv4Failure s w) as H4f.
  pose proof (count_after_source resolver Ipv6Success s w) as H6s.
  pose proof (count_after_source resolver Ipv6Failure s w) as H6f.
  cbn [count_of] in H4s, H4f, H6s, H6f.
  assert (H4 : (sum_N (map (host_counts resolver Ipv4Success) (all_hosts s))
                + sum_N (map (host_counts resolver Ipv4Failure) (all_hosts s))
                = N.of_nat (length (all_hosts s)))%N).
  { rewrite <- sum_N_plus. apply sum_N_const_one. intros h.
    unfold host_counts, ipv4_counts, ipv6_counts.
    now destruct (lookup resolver (Host.name h) A),
                 (lookup resolver (Host.name h) AAAA). }
  assert (H6 : (sum_N (map (host_counts resolver Ipv6Success) (all_hosts s))
                + sum_N (map (host_counts resolver Ipv6Failure) (all_hosts s))
                = N.of_nat (length (all_hosts s)))%N).
  { rewrite <- sum_N_plus. apply sum_N_const_one. intros h.
    unfold host_counts, ipv4_counts, ipv6_counts.
    now destruct (lookup resolver (Host.name h) A),
                 (lookup resolver (Host.name h) AAAA). }
  split; [rewrite H4s, H4f; lia|].
  split; [rewrite H6s, H6f; lia|].
  split; [intros k; rewrite count_after_source; lia|].
  change (all_hosts (Source.set_last_resolved (Some (clock (world_after_source resolver s w)))
            (source_after resolver s)))
    with (all_hosts (source_after resolver s)).
  rewrite all_hosts_source_after. apply length_map.
Qed.

Lemma filter_map_comm {X Y} (f : X -> Y) (p : Y -> bool) (xs : list X) :
  length (filter p (map f xs)) = length (filter (fun x => p (f x)) xs).
Proof.
  induction xs as [|x xs IH]; [reflexivity|].
  cbn [map filter]. destruct (p (f x)); cbn [length]; now rewrite IH.
Qed.

(** X8. After [resolve_all] the IPv4 counters agree with the flags: the
    IPv4-success counter has grown by the number of hosts whose
    [has_ipv4_address] is true and the IPv4-failure counter by the number
    of hosts where it is false. The IPv6-success counter counts answered
    AAAA queries, not genuine addresses: it has grown by at least the number
    of hosts whose [has_ipv6_address] is true, and the IPv6-failure counter
    by at most the number of hosts where that flag is false. *)
Theorem resolve_all_counters_and_flags :
  forall (resolver : DNSResolver) (s : Source.t) (w : World),
    exists s1 w1,
      Source.resolve_all resolver (s, w) = (Ok tt, (s1, w1)) /\
      let with_ipv4 := filter (fun h => truthy (Host.has_ipv4_address h)) (all_hosts s1) in
      let without_ipv4 :=
        filter (fun h => negb (truthy (Host.has_ipv4_address h))) (all_hosts s1) in
      let with_ipv6 := filter (fun h => truthy (Host.has_ipv6_address h)) (all_hosts s1) in
      let without_ipv6 :=
        filter (fun h => negb (truthy (Host.has_ipv6_address h))) (all_hosts s1) in
      (ipv4_resolution_success (metrics w1)
       = ipv4_resolution_success (metrics w) + N.of_nat (length with_ipv4))%N /\
      (ipv4_resolution_failure (metrics w1)
       = ipv4_resolution_failure (metrics w) + N.of_nat (length without_ipv4))%N /\
      (ipv6_resolution_success (metrics w) + N.of_nat (length with_ipv6)
       <= ipv6_resolution_success (metrics w1))%N /\
      (ipv6_resolution_failure (metrics w1)
       <= ipv6_resolution_failure (metrics w) + N.of_nat (length without_ipv6))%N.
Proof.
  intros resolver s w.
  exists (Source.set_last_resolved (Some (clock (world_after_source resolver s w)))
            (source_after resolver s)),
    (world_after_source resolver s w).
  split; [apply Source_resolve_all_closed|].
  cbv zeta.
  change (all_hosts (Source.set_last_resolved (Some (clock (world_after_source resolver s w)))
            (source_after resolver s)))
    with (all_hosts (source_after resolver s)).
  rewrite all_hosts_source_after, !filter_map_comm, <- !sum_N_indicator.
  pose proof (count_after_source resolver Ipv4Success s w) as H4s.
  pose proof (count_after_source resolver Ipv4Failure s w) as H4f.
  pose proof (count_after_source resolver Ipv6Success s w) as H6s.
  pose proof (count_after_source resolver Ipv6Failure s w) as H6f.
  cbn [count_of] in H4s, H4f, H6s, H6f.
  rewrite H4s, H4f, H6s, H6f.
  split; [|split; [|split]].
  - f_equal. f_equal. apply map_ext. intros h.
    unfold host_counts, ipv4_counts, ipv6_counts, host_after;
      cbn [Host.has_ipv4_address truthy].
    now destruct (lookup resolver (Host.name h) A),
                 (lookup resolver (Host.name h) AAAA).
  - f_equal. f_equal. apply map_ext. intros h.
    unfold host_counts, ipv4_counts, ipv6_counts, host_after;
      cbn [Host.has_ipv4_address truthy].
    now destruct (lookup resolver (Host.name h) A),
                 (lookup resolver (Host.name h) AAAA).
  - apply N.add_le_mono_l. apply sum_N_le. intros h.
    unfold host_counts, ipv4_counts, ipv6_counts, host_after;
      cbn [Host.has_ipv6_address truthy].
    destruct (lookup resolver (Host.name h) A),
             (lookup resolver (Host.name h) AAAA) as [rs|]; cbn [ipv6_verdict];
      try destruct (existsb _ rs); simpl; lia.
  - apply N.add_le_mono_l. apply sum_N_le. intros h.
    unfold host_counts, ipv4_counts, ipv6_counts, host_after;
      cbn [Host.has_ipv6_address truthy].
    destruct (lookup resolver (Host.name h) A),
             (lookup resolver (Host.name h) AAAA) as [rs|]; cbn [ipv6_verdict];
      try destruct (existsb _ rs); simpl; lia.
Qed.

Lemma dict_get_map_values {V} (f : V -> V) (k : string) (d : dict V) :
  dict_get k (map_values f d) = option_map f (dict_get k d).
Proof.
  unfold map_values. induction d as [|[k' v] d IH]; simpl; [reflexivity|].
  now destruct (String.eqb k k').
Qed.

Lemma dict_keys_map_values {V} (f : V -> V) (d : dict V) :
  dict_keys (map_values f d) = dict_keys d.
Proof. unfold dict_keys, map_values. rewrite map_map. reflexivity. Qed.

Lemma entities_at_source_after (resolver : DNSResolver) (s : Source.t)
    (country category : string) :
  Source.entities_at country category (source_after resolver s)
  = map (entity_after resolver) (Source.entities_at country category s).
Proof.
  unfold Source.entities_at, source_after;
    cbn [Source.countries_data Source.set_countries_data].
  rewrite dict_get_map_values.
  destruct (dict_get country (Source.countries_data s)) as [c|]; [|reflexivity].
  cbn [option_map]. unfold CountryData.entities_in, country_after;
    cbn [CountryData.categories CountryData.set_categories].
  rewrite dict_get_map_values.
  now destruct (dict_get category (CountryData.categories c)).
Qed.

Lemma entity_identity_after (resolver : DNSResolver) (e : Entity.t) :
  entity_identity (entity_after resolver e) = entity_identity e.
Proof.
  unfold entity_identity, entity_after;
    cbn [Entity.country Entity.category Entity.name Entity.main_host
         Entity.additional_hosts host_after Host.name].
  now rewrite map_map.
Qed.

Lemma Forall_map_values {V} (P : string * V -> Prop) (f : V -> V) (d : dict V) :
  Forall P d -> (forall k v, P (k, v) -> P (k, f v)) -> Forall P (map_values f d).
Proof.
  intros Hall Hf. unfold map_values. apply Forall_map.
  eapply Forall_impl; [|exact Hall]. intros [k v] H. now apply Hf.
Qed.

Lemma source_after_wf (resolver : DNSResolver) (s : Source.t) :
  source_wf s -> source_wf (source_after resolver s).
Proof.
  intros (Hnd & Hall). unfold source_wf, source_after;
    cbn [Source.countries_data Source.set_countries_data].
  split; [now rewrite dict_keys_map_values|].
  apply Forall_map_values; [exact Hall|]. cbn [fst snd].
  intros code c (Hcode & Hne & Hndc & Hcats).
  unfold country_wf, country_after;
    cbn [CountryData.country_code CountryData.categories CountryData.set_categories].
  split; [exact Hcode|].
  split; [unfold map_values; now destruct (CountryData.categories c)|].
  split; [now rewrite dict_keys_map_values|].
  apply Forall_map_values; [exact Hcats|]. cbn [fst snd].
  intros tag cat (Htag & Hnec & Hes).
  unfold category_wf, category_after;
    cbn [Category.category Category.entities Category.set_entities].
  split; [exact Htag|].
  split; [now destruct (Category.entities cat)|].
  apply Forall_map. eapply Forall_impl; [|exact Hes]. intros e He. exact He.
Qed.

(** X9. [resolve_all] changes flags and nothing else: the country codes
    keep their order, and under every country code and category tag the
    same entities stand in the same order, each with its country, category,
    name and host names; a well-formed tree stays well formed. *)
Theorem resolve_all_keeps_tree :
  forall (resolver : DNSResolver) (s : Source.t) (w : World),
    exists s1 w1,
      Source.resolve_all resolver (s, w) = (Ok tt, (s1, w1)) /\
      dict_keys (Source.countries_data s1) = dict_keys (Source.countries_data s) /\
      (forall country category,
          map entity_identity (Source.entities_at country category s1)
          = map entity_identity (Source.entities_at country category s)) /\
      (source_wf s -> source_wf s1).
Proof.
  intros resolver s w.
  exists (Source.set_last_resolved (Some (clock (world_after_source resolver s w)))
            (source_after resolver s)),
    (world_after_source resolver s w).
  split; [apply Source_resolve_all_closed|].
  split.
  { cbn [Source.set_last_resolved Source.countries_data source_after
         Source.set_countries_data]. apply dict_keys_map_values. }
  split.
  { intros country category.
    change (Source.entities_at country category
              (Source.set_last_resolved (Some (clock (world_after_source resolver s w)))
            (source_after resolver s)))
      with (Source.entities_at country category (source_after resolver s)).
    rewrite entities_at_source_after, map_map. apply map_ext.
    intros e. apply entity_identity_after. }
  intros Hwf. exact (source_after_wf resolver Hwf).
Qed.

Lemma all_categories_source_after (resolver : DNSResolver) (s : Source.t) :
  all_categories (source_after resolver s)
  = map (category_after resolver) (all_categories s).
Proof.
  unfold all_categories, source_after, dict_values, map_values;
    cbn [Source.countries_data Source.set_countries_data].
  induction (Source.countries_data s) as [|[code c] d IH]; simpl; [reflexivity|].
  rewrite IH, map_app. f_equal.
  unfold country_after, map_values;
    cbn [CountryData.categories CountryData.set_categories].
  rewrite !map_map. reflexivity.
Qed.

Lemma entity_after_ready (resolver : DNSResolver) (e : Entity.t) :
  Entity.ipv6_ready (entity_after resolver e)
  = Some (hosts_have_ipv6 (entity_after resolver e)).
Proof.
  unfold hosts_have_ipv6, entity_hosts, entity_after;
    cbn [Entity.ipv6_ready Entity.main_host Entity.additional_hosts forallb
         host_after Host.has_ipv6_address truthy].
  unfold py_and; cbn [truthy].
  now destruct (ipv6_verdict (lookup resolver (Host.name (Entity.main_host e)) AAAA)).
Qed.

(** X10. After [resolve_all] readiness is what the flags say: every entity
    of the tree is ready exactly when its main host and all its additional
    hosts have [has_ipv6_address] true, and the ready count of every
    category is the number of its entities of which that is so. *)
Theorem resolve_all_ready_counts :
  forall (resolver : DNSResolver) (s : Source.t) (w : World),
    exists s1 w1,
      Source.resolve_all resolver (s, w) = (Ok tt, (s1, w1)) /\
      Forall (fun e => Entity.ipv6_ready e = Some (hosts_have_ipv6 e))
             (Source.all_entities s1) /\
      Forall (fun c =>
                Category.ready_count c
                = Z.of_nat (length (filter hosts_have_ipv6 (Category.entities c))))
             (all_categories s1).
Proof.
  intros resolver s w.
  exists (Source.set_last_resolved (Some (clock (world_after_source resolver s w)))
            (source_after resolver s)),
    (world_after_source resolver s w).
  split; [apply Source_resolve_all_closed|].
  split.
  - change (Source.all_entities
              (Source.set_last_resolved (Some (clock (world_after_source resolver s w)))
            (source_after resolver s)))
      with (Source.all_entities (source_after resolver s)).
    rewrite all_entities_source_after. apply Forall_map, Forall_forall.
    intros e _. apply entity_after_ready.
  - change (all_categories
              (Source.set_last_resolved (Some (clock (world_after_source resolver s w)))
            (source_after resolver s)))
      with (all_categories (source_after resolver s)).
    rewrite all_categories_source_after. apply Forall_map, Forall_forall.
    intros c _. rewrite ready_count_length. do 2 f_equal.
    unfold category_after; cbn [Category.entities Category.set_entities].
    induction (Category.entities c) as [|e es IH]; [reflexivity|].
    cbn [map filter]. rewrite entity_after_ready, IH.
    now destruct (hosts_have_ipv6 (entity_after resolver e)).
Qed.

Lemma host_after_ipv6_same (r1 r2 : DNSResolver) (h : Host.t) :
  (forall name, lookup r1 name AAAA = lookup r2 name AAAA) ->
  Host.has_ipv6_address (host_after r1 h) = Host.has_ipv6_address (host_after r2 h).
Proof. intros Hsame. unfold host_after; cbn [Host.has_ipv6_address]. now rewrite Hsame. Qed.

Lemma entity_after_ready_same (r1 r2 : DNSResolver) (e : Entity.t) :
  (forall name, lookup r1 name AAAA = lookup r2 name AAAA) ->
  Entity.ipv6_ready (entity_after r1 e) = Entity.ipv6_ready (entity_after r2 e).
Proof.
  intros Hsame. unfold entity_after; cbn [Entity.ipv6_ready].
  rewrite (host_after_ipv6_same r1 r2 (Entity.main_host e) Hsame). f_equal.
  induction (Entity.additional_hosts e) as [|h hs IH]; [reflexivity|].
  cbn [map forallb]. now rewrite (host_after_ipv6_same r1 r2 h Hsame), IH.
Qed.

(** X11. IPv4 plays no part in readiness: two resolvers that answer every
    AAAA query alike leave, after [resolve_all], the same [ipv6_ready] in
    every entity of the tree, whatever they answer to the A queries. *)
Theorem readiness_ignores_ipv4 :
  forall (r1 r2 : DNSResolver) (s : Source.t) (w1 w2 : World),
    (forall name, lookup r1 name AAAA = lookup r2 name AAAA) ->
    exists s1 s2 w1' w2',
      Source.resolve_all r1 (s, w1) = (Ok tt, (s1, w1')) /\
      Source.resolve_all r2 (s, w2) = (Ok tt, (s2, w2')) /\
      map Entity.ipv6_ready (Source.all_entities s1)
      = map Entity.ipv6_ready (Source.all_entities s2).
Proof.
  intros r1 r2 s w1 w2 Hsame.
  exists (Source.set_last_resolved (Some (clock (world_after_source r1 s w1))) (source_after r1 s)),
    (Source.set_last_resolved (Some (clock (world_after_source r2 s w2))) (source_after r2 s)),
    (world_after_source r1 s w1), (world_after_source r2 s w2).
  split; [apply Source_resolve_all_closed|].
  split; [apply Source_resolve_all_closed|].
  change (map Entity.ipv6_ready (Source.all_entities (source_after r1 s))
          = map Entity.ipv6_ready (Source.all_entities (source_after r2 s))).
  rewrite !all_entities_source_after, !map_map. apply map_ext.
  intros e. now apply entity_after_ready_same.
Qed.

(** * Reports *)

Lemma dict_set_fresh {V} (k : string) (v : V) (d : dict V) :
  ~ In k (dict_keys d) -> dict_set k v d = d ++ [(k, v)].
Proof.
  induction d as [|[k' v'] d IH]; simpl; intros Hnin; [reflexivity|].
  destruct (String.eqb_spec k k') as [->|_]; [tauto|].
  rewrite IH; [reflexivity | tauto].
Qed.

Lemma dict_comprehension_unique {V W} (f : V -> W) (d : dict V) :
  NoDup (dict_keys d) ->
  dict_comprehension f d = map (fun kv => (fst kv, f (snd kv))) d.
Proof.
  unfold dict_comprehension.
  assert (Hgen : forall acc : dict W,
             NoDup (dict_keys acc ++ dict_keys d) ->
             fold_left (fun acc kv => dict_set (fst kv) (f (snd kv)) acc) d acc
             = acc ++ map (fun kv => (fst kv, f (snd kv))) d).
  { induction d as [|[k v] d IH]; intros acc Hnd; cbn [fold_left map fst snd].
    - now rewrite app_nil_r.
    - cbn [dict_keys map fst] in Hnd.
      assert (Hk : ~ In k (dict_keys acc)).
      { apply NoDup_remove_2 in Hnd. intros Hin. apply Hnd.
        apply in_or_app. now left. }
      rewrite (dict_set_fresh k (f v) acc Hk), IH.
      + now rewrite <- app_assoc.
      + unfold dict_keys. rewrite map_app. cbn [map fst].
        rewrite <- app_assoc. exact Hnd. }
  intros Hnd. now rewrite (Hgen [] Hnd).
Qed.

Lemma dict_get_map_kv {V W} (f : V -> W) (k : string) (d : dict V) :
  dict_get k (map (fun kv => (fst kv, f (snd kv))) d) = option_map f (dict_get k d).
Proof.
  induction d as [|[k' v] d IH]; simpl; [reflexivity|].
  now destruct (String.eqb k k').
Qed.

Lemma source_wf_keys_unique (s : Source.t) : source_wf s -> keys_unique s.
Proof.
  intros (Hnd & Hall). split; [exact Hnd|].
  eapply Forall_impl; [|exact Hall]. intros [code c] (_ & _ & Hndc & _). exact Hndc.
Qed.

Lemma Source_as_dict_layout (s : Source.t) :
  keys_unique s ->
  Source_as_dict s
  = JObject
      (map (fun kv =>
              (fst kv,
               JObject
                 (map (fun kc => (fst kc, Category_as_json (snd kc)))
                      (CountryData.categories (snd kv)))))
           (Source.countries_data s)).
Proof.
  intros (Hnd & Hall).
  unfold Source_as_dict. rewrite (dict_comprehension_unique _ _ Hnd). f_equal.
  apply map_ext_in. intros [code c] Hin. cbn [fst snd]. f_equal.
  unfold CountryData_as_json. f_equal.
  rewrite Forall_forall in Hall.
  apply dict_comprehension_unique. exact (Hall _ Hin).
Qed.

Lemma Source_as_dict_get (s : Source.t) (country category : string) :
  keys_unique s ->
  match json_get country (Source_as_dict s) with
  | Some report =>
      dict_contains country (Source.countries_data s) = true /\
      match json_get category report with
      | Some entities =>
          entities
          = JArray (map Entity_as_dict (Source.entities_at country category s))
      | None => Source.entities_at country category s = []
      end
  | None => dict_contains country (Source.countries_data s) = false
  end.
Proof.
  intros Hu. rewrite (Source_as_dict_layout Hu). cbn [json_get].
  rewrite (dict_get_map_kv
             (fun c => JObject (map (fun kc => (fst kc, Category_as_json (snd kc)))
                                    (CountryData.categories c)))).
  unfold Source.entities_at, dict_contains.
  destruct (dict_get country (Source.countries_data s)) as [c|]; cbn [option_map];
    [|reflexivity].
  split; [reflexivity|]. cbn [json_get]. rewrite (dict_get_map_kv Category_as_json).
  unfold CountryData.entities_in.
  destruct (dict_get category (CountryData.categories c)); reflexivity.
Qed.

(** X13. The report keeps the layout of the tree: it has one member per
    country, in the order of the country codes, each with one member per
    category in the order of the tags, and under a country code and a
    category tag it lists the reports of the entities registered there, in
    their order; a code or tag that the tree does not have is not in the
    report. *)
Theorem Source_as_json_layout :
  forall (json_dumps : json_value -> string) (s : Source.t),
    keys_unique s ->
    Source_as_json json_dumps s
    = json_dumps
        (JObject
           (map (fun kv =>
                   (fst kv,
                    JObject
                      (map (fun kc => (fst kc, Category_as_json (snd kc)))
                           (CountryData.categories (snd kv)))))
                (Source.countries_data s))) /\
    forall country category,
      match json_get country (Source_as_dict s) with
      | Some report =>
          dict_contains country (Source.countries_data s) = true /\
          match json_get category report with
          | Some entities =>
              entities
              = JArray (map Entity_as_dict (Source.entities_at country category s))
          | None => Source.entities_at country category s = []
          end
      | None => dict_contains country (Source.countries_data s) = false
      end.
Proof.
  intros json_dumps s Hu.
  split; [unfold Source_as_json; now rewrite (Source_as_dict_layout Hu)|].
  intros country category. now apply Source_as_dict_get.
Qed.

Lemma json_of_flag_inj (v1 v2 : option bool) :
  json_of_flag v1 = json_of_flag v2 -> v1 = v2.
Proof. destruct v1, v2; simpl; congruence. Qed.

Lemma Host_as_json_inj (h1 h2 : Host.t) : Host_as_json h1 = Host_as_json h2 -> h1 = h2.
Proof.
  destruct h1, h2; unfold Host_as_json; simpl. intros [= Hn H4 H6].
  apply json_of_flag_inj in H4, H6. congruence.
Qed.

Lemma map_Host_as_json_inj (l1 l2 : list Host.t) :
  map Host_as_json l1 = map Host_as_json l2 -> l1 = l2.
Proof.
  revert l2. induction l1 as [|h l1 IH]; intros [|h2 l2]; simpl; try discriminate;
    [reflexivity|].
  intros Heq.
  assert (Hh : Host_as_json h = Host_as_json h2) by congruence.
  assert (Hl : map Host_as_json l1 = map Host_as_json l2) by congruence.
  apply Host_as_json_inj in Hh. now rewrite Hh, (IH l2 Hl).
Qed.

(** X14. What a report says and what it leaves out: the report of a host
    determines the host; two entities have the same report exactly when
    they have the same name, main host and additional hosts, so the
    country, the category and [ipv6_ready] of an entity are not in its
    report; and the report of a source does not depend on
    [last_resolved]. *)
Theorem reports_content :
  (forall h1 h2 : Host.t, Host_as_json h1 = Host_as_json h2 <-> h1 = h2) /\
  (forall e1 e2 : Entity.t,
      Entity_as_dict e1 = Entity_as_dict e2
      <-> Entity.name e1 = Entity.name e2
          /\ Entity.main_host e1 = Entity.main_host e2
          /\ Entity.additional_hosts e1 = Entity.additional_hosts e2) /\
  (forall (json_dumps : json_value -> string) (s : Source.t) (v : option Z),
      Source_as_json json_dumps (Source.set_last_resolved v s)
      = Source_as_json json_dumps s).
Proof.
  split; [|split].
  - intros h1 h2. split; [apply Host_as_json_inj | now intros ->].
  - intros e1 e2. unfold Entity_as_dict. split.
    + intros Heq.
      assert (Hn : Entity.name e1 = Entity.name e2) by congruence.
      assert (Hm : Host_as_json (Entity.main_host e1)
                   = Host_as_json (Entity.main_host e2)) by congruence.
      assert (Ha : map Host_as_json (Entity.additional_hosts e1)
                   = map Host_as_json (Entity.additional_hosts e2)) by congruence.
      apply Host_as_json_inj in Hm. apply map_Host_as_json_inj in Ha. auto.
    + intros (-> & -> & ->). reflexivity.
  - intros json_dumps s v. reflexivity.
Qed.

Lemma from_json_report (j : Entity.json) (e : Entity.t) :
  Entity.from_json j = Ok e ->
  Entity_as_dict e
  = JObject [("name", JString (Entity.name e));
             ("main_host", unresolved_host_report (Host.name (Entity.main_host e)));
             ("additional_hosts",
              JArray (map (fun h => unresolved_host_report (Host.name h))
                          (Entity.additional_hosts e)))].
Proof.
  destruct j as [c k n mh ah]; unfold Entity.from_json; simpl.
  destruct mh as [mh|]; [|discriminate]. destruct c as [c|]; [|discriminate].
  destruct k as [k|]; [|discriminate]. simpl. intros [= <-].
  unfold Entity_as_dict; cbn [Entity.name Entity.main_host Entity.additional_hosts].
  do 3 f_equal. f_equal. f_equal. f_equal. now rewrite !map_map.
Qed.

Lemma built_entities_from_json (js : list Entity.json) (e : Entity.t) :
  In e (built_entities js) -> exists j, In j js /\ Entity.from_json j = Ok e.
Proof.
  induction js as [|j js IH]; simpl; [intros []|].
  destruct (Entity.from_json j) as [e0|err] eqn:E; [|intros []].
  intros [<-|Hin].
  - exists j. split; [now left | exact E].
  - destruct (IH Hin) as (j' & Hj' & He). exists j'. split; [now right | exact He].
Qed.

(** X15. Load and report, before any resolution: in the report of a source
    filled from the empty source by [extend_from_json], the entities listed
    under a country code and a category tag are those built from the
    records for that country and category, in the order of the records, and
    each of them is reported with its name, the names of its hosts, and
    null for every flag. *)
Theorem load_then_report :
  forall (batches : list (list Entity.json)) (country category : string),
    let s := run_calls (map ExtendFromJson batches) Source.new in
    let built := filter (registered_at country category)
                        (flat_map built_entities batches) in
    Source.entities_at country category s = built /\
    match json_get country (Source_as_dict s) with
    | Some report =>
        match json_get category report with
        | Some entities => entities = JArray (map Entity_as_dict built)
        | None => built = []
        end
    | None => built = []
    end /\
    Forall (fun e =>
              Entity_as_dict e
              = JObject
                  [("name", JString (Entity.name e));
                   ("main_host",
                    unresolved_host_report (Host.name (Entity.main_host e)));
                   ("additional_hosts",
                    JArray (map (fun h => unresolved_host_report (Host.name h))
                                (Entity.additional_hosts e)))])
           built.
Proof.
  intros batches country category s built.
  assert (Hat : Source.entities_at country category s = built).
  { unfold s, built. rewrite run_calls_entities_at, appended_extend_calls.
    reflexivity. }
  split; [exact Hat|]. split.
  - assert (Hu : keys_unique s)
      by (apply source_wf_keys_unique, run_extend_calls_wf, Source_new_wf).
    pose proof (Source_as_dict_get country category Hu) as Hget.
    rewrite Hat in Hget.
    destruct (json_get country (Source_as_dict s)) as [report|].
    + destruct Hget as [_ Hget]. exact Hget.
    + rewrite <- Hat. unfold Source.entities_at. unfold dict_contains in Hget.
      now destruct (dict_get country (Source.countries_data s)).
  - apply Forall_forall. intros e Hin. unfold built in Hin.
    apply filter_In in Hin. destruct Hin as [Hin _].
    apply in_flat_map in Hin. destruct Hin as (js & _ & Hin).
    destruct (built_entities_from_json js e Hin) as (j & _ & Hj).
    exact (from_json_report j Hj).
Qed.

Lemma host_after_report (resolver : DNSResolver) (h : Host.t) :
  Host_as_json (host_after resolver h) = resolved_host_report resolver (Host.name h).
Proof. reflexivity. Qed.

(** X16. Resolve and report: after [resolve_all] the entities reported
    under a country code and a category tag are the same ones in the same
    order, each with its name and the names of its hosts, and every flag is
    a boolean that depends on nothing but the name of the host and the DNS
    answers for it; no flag is null any more. *)
Theorem resolve_then_report :
  forall (resolver : DNSResolver) (s : Source.t) (w : World),
    exists s1 w1,
      Source.resolve_all resolver (s, w) = (Ok tt, (s1, w1)) /\
      forall country category,
        map Entity_as_dict (Source.entities_at country category s1)
        = map (fun e =>
                 JObject
                   [("name", JString (Entity.name e));
                    ("main_host",
                     resolved_host_report resolver (Host.name (Entity.main_host e)));
                    ("additional_hosts",
                     JArray (map (fun h => resolved_host_report resolver (Host.name h))
                                 (Entity.additional_hosts e)))])
              (Source.entities_at country category s).
Proof.
  intros resolver s w.
  exists (Source.set_last_resolved (Some (clock (world_after_source resolver s w)))
            (source_after resolver s)),
    (world_after_source resolver s w).
  split; [apply Source_resolve_all_closed|].
  intros country category.
  change (Source.entities_at country category
            (Source.set_last_resolved (Some (clock (world_after_source resolver s w)))
            (source_after resolver s)))
    with (Source.entities_at country category (source_after resolver s)).
  rewrite entities_at_source_after, map_map. apply map_ext. intros e.
  unfold Entity_as_dict, entity_after;
    cbn [Entity.name Entity.main_host Entity.additional_hosts].
  rewrite host_after_report, map_map. reflexivity.
Qed.

(** * Floats: rounding error *)

Local Open Scope Q_scope.

Lemma pow2_pos (e : Z) : 0 < pow2 e.
Proof. apply Qpower_0_lt. reflexivity. Qed.

Lemma pow2_add (a b : Z) : pow2 (a + b) == pow2 a * pow2 b.
Proof. apply Qpower_plus. discriminate. Qed.

Lemma pow2_inject (n : Z) : (0 <= n)%Z -> inject_Z (2 ^ n) == pow2 n.
Proof. intros Hn. now rewrite Zpower_Qpower. Qed.

Lemma pow2_le_mono (a b : Z) : (a <= b)%Z -> pow2 a <= pow2 b.
Proof. intros Hab. apply Qpower_le_compat_l; [exact Hab | discriminate]. Qed.

Lemma pow2_lt_inv (a b : Z) : pow2 a < pow2 b -> (a < b)%Z.
Proof. intros Hab. eapply Qpower_lt_compat_l_inv; [exact Hab | reflexivity]. Qed.

Lemma Q_as_quotient (x : Q) : x * inject_Z (Zpos (Qden x)) == inject_Z (Qnum x).
Proof.
  destruct x as [n d]; simpl. unfold Qeq, Qmult, inject_Z; simpl. lia.
Qed.

Lemma log2_bracket (n : Z) :
  (0 < n)%Z -> pow2 (Z.log2 n) <= inject_Z n /\ inject_Z n < pow2 (Z.log2 n + 1).
Proof.
  intros Hn. destruct (Z.log2_spec n Hn) as [Hlo Hhi].
  pose proof (Z.log2_nonneg n) as Hnn.
  rewrite <- !pow2_inject by lia.
  rewrite <- Zle_Qle, <- Zlt_Qlt. split; [exact Hlo|].
  now replace (Z.log2 n + 1)%Z with (Z.succ (Z.log2 n)) by lia.
Qed.

(** [ilog2 x] is the binary exponent of [x]. *)
Lemma ilog2_spec (x : Q) :
  0 < x -> pow2 (ilog2 x) <= x /\ x < pow2 (ilog2 x + 1).
Proof.
  intros Hx.
  assert (Hn : (0 < Qnum x)%Z).
  { destruct x as [n d]. unfold Qlt in Hx; simpl in *. lia. }
  destruct (log2_bracket Hn) as [Hnlo Hnhi].
  destruct (log2_bracket (Pos2Z.is_pos (Qden x))) as [Hdlo Hdhi].
  pose proof (Q_as_quotient x) as Hq.
  set (ln := Z.log2 (Qnum x)) in *. set (ld := Z.log2 (Zpos (Qden x))) in *.
  set (N := inject_Z (Qnum x)) in *. set (D := inject_Z (Zpos (Qden x))) in *.
  assert (HD : 0 < D). { unfold D. change 0 with (inject_Z 0). rewrite <- Zlt_Qlt. reflexivity. }
  pose proof (pow2_pos ld) as Hpld.
  assert (Hhi : x < pow2 (ln - ld + 1)).
  { apply (Qmult_lt_r _ _ D HD). rewrite Hq.
    apply Qlt_le_trans with (pow2 (ln + 1)); [exact Hnhi|].
    replace (ln + 1)%Z with ((ln - ld + 1) + ld)%Z by lia.
    rewrite pow2_add. apply Qmult_le_l; [apply pow2_pos | exact Hdlo]. }
  assert (Hlo : pow2 (ln - ld - 1) <= x).
  { apply (Qmult_le_r _ _ D HD). rewrite Hq.
    apply Qle_trans with (pow2 ln); [|exact Hnlo].
    replace ln with ((ln - ld - 1) + (ld + 1))%Z at 2 by lia.
    rewrite pow2_add. apply Qmult_le_l; [apply pow2_pos | apply Qlt_le_weak, Hdhi]. }
  unfold ilog2. fold ln ld.
  destruct (Qle_bool (pow2 (ln - ld)) x) eqn:E.
  - apply Qle_bool_iff in E. split; assumption.
  - assert (Hlt : x < pow2 (ln - ld)).
    { apply Qnot_le_lt. intros Hle. apply Qle_bool_iff in Hle. congruence. }
    split; [exact Hlo|]. now replace (ln - ld - 1 + 1)%Z with (ln - ld)%Z by lia.
Qed.

(** Rounding to an integer moves a value by at most one half. *)
Lemma round_half_even_error (x : Q) :
  - (1 # 2) <= inject_Z (round_half_even x) - x <= 1 # 2.
Proof.
  unfold round_half_even.
  pose proof (Qfloor_le x) as Hlo. pose proof (Qlt_floor x) as Hhi.
  rewrite inject_Z_plus in Hhi. change (inject_Z 1) with 1 in Hhi.
  destruct (Qcompare_spec (x - inject_Z (Qfloor x)) (1 # 2)) as [He|Hl|Hg].
  - destruct (Z.even (Qfloor x)); rewrite ?inject_Z_plus;
      change (inject_Z 1) with 1; lra.
  - lra.
  - rewrite inject_Z_plus. change (inject_Z 1) with 1. lra.
Qed.

(** Rounding to binary64 moves a value by at most half a unit in the last
    place. *)
Lemma b64_nearest_pos_abs_error (x : Q) :
  0 < x ->
  let e := Z.max (ilog2 x - 52) (-1074) in
  - ((1 # 2) * pow2 e) <= b64_nearest_pos x - x <= (1 # 2) * pow2 e.
Proof.
  intros Hx e. unfold b64_nearest_pos. fold e.
  pose proof (pow2_pos e) as HP.
  pose proof (round_half_even_error (x / pow2 e)) as [Hlo Hhi].
  assert (Hy : x / pow2 e * pow2 e == x).
  { field. intros H0. rewrite H0 in HP. discriminate. }
  apply (Qmult_le_compat_r _ _ (pow2 e)) in Hlo; [|apply Qlt_le_weak, HP].
  apply (Qmult_le_compat_r _ _ (pow2 e)) in Hhi; [|apply Qlt_le_weak, HP].
  assert (Hd : inject_Z (round_half_even (x / pow2 e)) * pow2 e - x
               == (inject_Z (round_half_even (x / pow2 e)) - x / pow2 e) * pow2 e).
  { generalize (inject_Z (round_half_even (x / pow2 e))). intros R.
    field. intros H0. rewrite H0 in HP. discriminate. }
  rewrite Hd.
  generalize dependent ((inject_Z (round_half_even (x / pow2 e)) - x / pow2 e) * pow2 e).
  generalize dependent (pow2 e).
  intros P HP _ d Hlo Hhi _. split; lra.
Qed.

(** In the normal range the relative error is at most 2^-53. *)
Lemma b64_nearest_pos_rel_error (x : Q) :
  0 < x -> (-1022 <= ilog2 x)%Z ->
  x * (1 - b64_unit) <= b64_nearest_pos x <= x * (1 + b64_unit).
Proof.
  intros Hx Hnormal.
  pose proof (b64_nearest_pos_abs_error Hx) as Herr. cbv zeta in Herr.
  rewrite Z.max_l in Herr by lia.
  destruct (ilog2_spec Hx) as [Hlo _].
  assert (HP : pow2 (ilog2 x - 52) == pow2 (ilog2 x) * (1 # 4503599627370496)).
  { replace (ilog2 x - 52)%Z with (ilog2 x + (-52))%Z by lia.
    rewrite pow2_add. apply Qmult_comp; reflexivity. }
  rewrite HP in Herr. unfold b64_unit.
  generalize dependent (pow2 (ilog2 x)). intros L Herr HL _. split; lra.
Qed.

Lemma ilog2_normal (x : Q) : pow2 (-1022) <= x -> (-1022 <= ilog2 x)%Z.
Proof.
  intros Hx.
  assert (H0 : 0 < x) by (eapply Qlt_le_trans; [apply (pow2_pos (-1022)) | exact Hx]).
  destruct (ilog2_spec H0) as [_ Hhi].
  assert (Hlt : pow2 (-1022) < pow2 (ilog2 x + 1)) by (eapply Qle_lt_trans; eassumption).
  apply pow2_lt_inv in Hlt. lia.
Qed.

Lemma ilog2_le_0 (x : Q) : 0 < x -> x <= 1 -> (ilog2 x <= 0)%Z.
Proof.
  intros H0 H1. destruct (ilog2_spec H0) as [Hlo _].
  assert (Hle : pow2 (ilog2 x) <= pow2 0) by (eapply Qle_trans; eassumption).
  eapply Qpower_le_compat_l_inv; [exact Hle | reflexivity].
Qed.

Lemma b64_nearest_nonneg_spec (x : Q) :
  0 < x -> b64_nearest x = b64_nearest_pos x.
Proof.
  intros Hx. unfold b64_nearest. apply Qgt_alt in Hx. now rewrite Hx.
Qed.

Lemma b64_nearest_zero (x : Q) : x == 0 -> b64_nearest x = 0.
Proof.
  intros Hx. unfold b64_nearest. apply Qeq_alt in Hx. now rewrite Hx.
Qed.

Lemma not_overflow (r : Q) : -(2) <= r <= 128 -> Qle_bool (pow2 1024) (Qabs r) = false.
Proof.
  intros Hr. destruct (Qle_bool (pow2 1024) (Qabs r)) eqn:E; [|reflexivity].
  apply Qle_bool_iff in E.
  assert (Habs : Qabs r <= 128) by (apply Qabs_Qle_condition; lra).
  assert (Hbig : 128 < pow2 1024).
  { change 128 with (pow2 7). apply Qpower_lt_compat_l; [lia | reflexivity]. }
  lra.
Qed.

Lemma ratio_times_den (a b : Z) :
  (0 < b)%Z -> inject_Z a / inject_Z b * inject_Z b == inject_Z a.
Proof.
  intros Hb. field. intros H0.
  assert (Hpos : inject_Z 0 < inject_Z b) by (rewrite <- Zlt_Qlt; exact Hb).
  rewrite H0 in Hpos. discriminate.
Qed.

Lemma ratio_bounds (a b : Z) :
  (0 <= a <= b)%Z -> (0 < b)%Z ->
  0 <= inject_Z a / inject_Z b <= 1.
Proof.
  intros Ha Hb. pose proof (ratio_times_den a Hb) as Hq.
  assert (HB : 0 < inject_Z b) by (change 0 with (inject_Z 0); rewrite <- Zlt_Qlt; exact Hb).
  assert (HA : 0 <= inject_Z a <= inject_Z b).
  { change 0 with (inject_Z 0). rewrite <- !Zle_Qle. exact Ha. }
  split.
  - apply (Qmult_le_r _ _ (inject_Z b) HB). rewrite Hq. lra.
  - apply (Qmult_le_r _ _ (inject_Z b) HB). rewrite Hq. lra.
Qed.

Lemma ratio_pos (a b : Z) :
  (0 < a)%Z -> (0 < b)%Z -> 0 < inject_Z a / inject_Z b.
Proof.
  intros Ha Hb. pose proof (ratio_times_den a Hb) as Hq.
  assert (HB : 0 < inject_Z b) by (change 0 with (inject_Z 0); rewrite <- Zlt_Qlt; exact Hb).
  assert (HA : 0 < inject_Z a) by (change 0 with (inject_Z 0); rewrite <- Zlt_Qlt; exact Ha).
  apply (Qmult_lt_r _ _ (inject_Z b) HB). rewrite Hq. lra.
Qed.

(** The quotient of two counts does not overflow. *)
Lemma truediv_ratio (a b : Z) :
  (0 <= a <= b)%Z -> (0 < b)%Z ->
  exists r, truediv a b = Ok r /\ r = b64_nearest (inject_Z a / inject_Z b).
Proof.
  intros Ha Hb. unfold truediv.
  destruct (Z.eqb_spec b 0) as [->|_]; [lia|].
  rewrite not_overflow; [eexists; split; reflexivity|].
  destruct (Z.eq_dec a 0) as [->|Hne].
  - rewrite b64_nearest_zero; [lra|]. unfold Qdiv. ring.
  - assert (Hq : 0 < inject_Z a / inject_Z b) by (apply ratio_pos; lia).
    destruct (ratio_bounds Ha Hb) as [_ Hq1].
    rewrite (b64_nearest_nonneg_spec Hq).
    pose proof (b64_nearest_pos_abs_error Hq) as Herr. cbv zeta in Herr.
    pose proof (ilog2_le_0 Hq Hq1) as Hlog.
    assert (HP : pow2 (Z.max (ilog2 (inject_Z a / inject_Z b) - 52) (-1074)) <= pow2 0)
      by (apply pow2_le_mono; lia).
    change (pow2 0) with 1 in HP.
    generalize dependent (pow2 (Z.max (ilog2 (inject_Z a / inject_Z b) - 52) (-1074))).
    generalize dependent (b64_nearest_pos (inject_Z a / inject_Z b)).
    intros r P Herr HP. lra.
Qed.

(** The quotient of two counts, up to 2^44, with its rounding error. *)
Lemma truediv_ratio_error (a b : Z) :
  (0 < a <= b)%Z -> (b <= two_pow_44)%Z ->
  exists r,
    truediv a b = Ok r /\
    inject_Z a / inject_Z b * (1 - b64_unit) <= r
    /\ r <= inject_Z a / inject_Z b * (1 + b64_unit)
    /\ (1 # 17592186044416) <= inject_Z a / inject_Z b <= 1.
Proof.
  intros Ha Hb.
  destruct (@truediv_ratio a b) as (r & Hr & ->); [lia | lia |].
  exists (b64_nearest (inject_Z a / inject_Z b)). split; [exact Hr|].
  assert (Hq : 0 < inject_Z a / inject_Z b) by (apply ratio_pos; lia).
  destruct (@ratio_bounds a b) as [_ Hq1]; [lia | lia |].
  assert (Hqlo : (1 # 17592186044416) <= inject_Z a / inject_Z b).
  { pose proof (@ratio_times_den a b) as Hqb.
    assert (HA : 1 <= inject_Z a) by (change 1 with (inject_Z 1); rewrite <- Zle_Qle; lia).
    assert (HB : inject_Z b <= 17592186044416).
    { change 17592186044416 with (inject_Z two_pow_44). rewrite <- Zle_Qle. exact Hb. }
    assert (Hmul : inject_Z a / inject_Z b * inject_Z b
                   <= inject_Z a / inject_Z b * 17592186044416).
    { apply Qmult_le_l; [exact Hq | exact HB]. }
    rewrite Hqb in Hmul by lia.
    generalize dependent (inject_Z a / inject_Z b). intros q; intros. lra. }
  rewrite (b64_nearest_nonneg_spec Hq).
  assert (Hnormal : (-1022 <= ilog2 (inject_Z a / inject_Z b))%Z).
  { apply ilog2_normal. eapply Qle_trans; [|exact Hqlo].
    change (1 # 17592186044416) with (pow2 (-44)). apply pow2_le_mono. lia. }
  pose proof (b64_nearest_pos_rel_error Hq Hnormal) as [Hlo Hhi].
  repeat split; assumption.
Qed.

Lemma below_overflow (v : Q) : v <= 128 -> Qle_bool (pow2 1024) v = false.
Proof.
  intros Hv. destruct (Qle_bool (pow2 1024) v) eqn:E; [|reflexivity].
  apply Qle_bool_iff in E.
  assert (Hbig : 128 < pow2 1024).
  { change 128 with (pow2 7). apply Qpower_lt_compat_l; [lia | reflexivity]. }
  lra.
Qed.

Lemma above_neg_overflow (v : Q) : 0 <= v -> Qle_bool v (- pow2 1024) = false.
Proof.
  intros Hv. destruct (Qle_bool v (- pow2 1024)) eqn:E; [|reflexivity].
  apply Qle_bool_iff in E. pose proof (pow2_pos 1024). lra.
Qed.

(** The integer that [format_percent0] writes for a ratio between 2^-45
    and 1. *)
Lemma format_percent0_nearest (r : Q) :
  (1 # 35184372088832) <= r -> r <= 1 + b64_unit ->
  exists n,
    format_percent0 r = (str_of_Z n ++ "%")%string /\
    r * 100 * (1 - b64_unit) - (1 # 2) <= inject_Z n
    /\ inject_Z n <= r * 100 * (1 + b64_unit) + (1 # 2).
Proof.
  intros Hlo Hhi. unfold format_percent0.
  assert (Hpos : 0 < r * 100) by lra.
  rewrite (b64_nearest_nonneg_spec Hpos).
  assert (Hnormal : (-1022 <= ilog2 (r * 100))%Z).
  { apply ilog2_normal. apply Qle_trans with (1 # 35184372088832); [|lra].
    change (1 # 35184372088832) with (pow2 (-45)). apply pow2_le_mono. lia. }
  pose proof (b64_nearest_pos_rel_error Hpos Hnormal) as [Hvlo Hvhi].
  pose proof (round_half_even_error (b64_nearest_pos (r * 100))) as [Hnlo Hnhi].
  unfold b64_unit in *.
  rewrite below_overflow by lra.
  rewrite above_neg_overflow by lra.
  assert (Hgt : 0 < b64_nearest_pos (r * 100)) by lra.
  apply Qgt_alt in Hgt. rewrite Hgt.
  exists (round_half_even (b64_nearest_pos (r * 100))).
  split; [reflexivity|]. split; lra.
Qed.

(** Division and formatting together: the integer written is within one
    half of the exact percentage. The two roundings to binary64 move the
    percentage by less than 1 / (2 b), which cannot carry it across a
    half-integer other than one it sits on. *)
Lemma percent_nearest (a b : Z) :
  (0 <= a <= b)%Z -> (0 < b <= two_pow_44)%Z ->
  exists r n,
    truediv a b = Ok r /\
    format_percent0 r = (str_of_Z n ++ "%")%string /\
    (Z.abs (2 * (n * b - 100 * a)) <= b)%Z /\
    (0 <= n <= 100)%Z.
Proof.
  intros Ha Hb.
  destruct (Z.eq_dec a 0) as [->|Hne].
  - destruct (@truediv_ratio 0 b) as (r & Hr & Hr0); [lia | lia |].
    rewrite b64_nearest_zero in Hr0 by (unfold Qdiv; ring). subst r.
    exists 0, 0%Z. split; [exact Hr|]. split; [reflexivity|]. lia.
  - destruct (@truediv_ratio_error a b) as (r & Hr & Hrlo & Hrhi & Hqlo & Hqhi);
      [lia | lia |].
    pose proof (@ratio_times_den a b) as Hqb.
    remember (inject_Z a / inject_Z b) as q eqn:Eq.
    unfold b64_unit in *.
    destruct (@format_percent0_nearest r) as (n & Hfmt & Hnlo & Hnhi);
      [lra | unfold b64_unit; lra |].
    unfold b64_unit in *.
    exists r, n. split; [exact Hr|]. split; [exact Hfmt|].
    assert (HB : 0 <= inject_Z b <= 17592186044416).
    { change 0 with (inject_Z 0). change 17592186044416 with (inject_Z two_pow_44).
      rewrite <- !Zle_Qle. lia. }
    assert (Hup : (inject_Z n - 100 * q) * inject_Z b
                  <= ((1 # 2) + (1 # 40000000000000)) * inject_Z b).
    { apply Qmult_le_compat_r; [lra | apply HB]. }
    assert (Hdn : (- ((1 # 2) + (1 # 40000000000000))) * inject_Z b
                  <= (inject_Z n - 100 * q) * inject_Z b).
    { apply Qmult_le_compat_r; [lra | apply HB]. }
    assert (Hexp : (inject_Z n - 100 * q) * inject_Z b
                   == inject_Z (n * b - 100 * a)).
    { unfold Z.sub. rewrite inject_Z_plus, inject_Z_opp, !inject_Z_mult.
      rewrite <- (Hqb ltac:(lia)). change (inject_Z 100) with 100. ring. }
    rewrite Hexp in Hup, Hdn.
    assert (Hz : (- b - 1 < 2 * (n * b - 100 * a) < b + 1)%Z).
    { rewrite !Zlt_Qlt. unfold Z.sub at 1.
      rewrite !inject_Z_plus, inject_Z_mult, !inject_Z_opp.
      change (inject_Z 1) with 1. change (inject_Z 2) with 2.
      generalize dependent (inject_Z (n * b - 100 * a)).
      generalize dependent (inject_Z b). intros B; intros. split; lra. }
    assert (Hn : (-1 < 2 * n < 202)%Z).
    { rewrite !Zlt_Qlt, inject_Z_mult.
      change (inject_Z 2) with 2. change (inject_Z 202) with 202.
      change (inject_Z (-1)) with (-1 # 1). split; lra. }
    lia.
Qed.

(** * Category.ready_percentage *)

Lemma total_count_pos (c : Category.t) :
  Category.entities c <> [] -> (0 < Category.total_count c)%Z.
Proof.
  unfold Category.total_count. destruct (Category.entities c); [congruence|].
  intros _. simpl length. lia.
Qed.

(** C4. For a category without entities the total count is 0 and
    [ready_percentage] raises [ZeroDivisionError]; so it does whenever the
    total count is 0; for a category with at least one entity it returns a
    string. *)
Theorem Category_ready_percentage_zero_division :
  forall (c : Category.t),
    (Category.entities c = [] ->
     Category.total_count c = 0%Z /\
     Category.ready_percentage c = Raise ZeroDivisionError) /\
    (Category.total_count c = 0%Z ->
     Category.ready_percentage c = Raise ZeroDivisionError) /\
    (Category.entities c <> [] ->
     exists s, Category.ready_percentage c = Ok s).
Proof.
  intros c.
  assert (Hzero : Category.total_count c = 0%Z ->
                  Category.ready_percentage c = Raise ZeroDivisionError).
  { intros H0. unfold Category.ready_percentage, truediv. now rewrite H0. }
  split; [|split; [exact Hzero|]].
  - intros Hnil.
    assert (H0 : Category.total_count c = 0%Z)
      by (unfold Category.total_count; now rewrite Hnil).
    split; [exact H0 | exact (Hzero H0)].
  - intros Hne. unfold Category.ready_percentage.
    destruct (@truediv_ratio (Category.ready_count c) (Category.total_count c))
      as (r & Hr & _);
      [apply ready_count_bounds | now apply total_count_pos |].
    rewrite Hr. eexists; reflexivity.
Qed.

(** C6, as amended. For a category of at least one and at most 2^44
    entities [ready_percentage] is the decimal writing of an integer [n]
    between 0 and 100 followed by a percent sign, where [n] is an integer
    nearest to the exact percentage: |n - 100 * ready_count / total_count|
    is at most 1/2. In particular two ready entities out of three give
    "67%". An exact half is not always rounded up, and either neighbour can
    result: one ready entity out of eight (12.5) gives "12%", three out of
    eight (37.5) give "38%", twenty-three out of forty (57.5) give "57%". *)
Theorem Category_ready_percentage_nearest :
  forall (c : Category.t),
    Category.entities c <> [] ->
    (Category.total_count c <= two_pow_44)%Z ->
    exists n : Z,
      Category.ready_percentage c = Ok (str_of_Z n ++ "%")%string /\
      (0 <= n <= 100)%Z /\
      (Z.abs (2 * (n * Category.total_count c - 100 * Category.ready_count c))
       <= Category.total_count c)%Z /\
      (Category.total_count c = 3%Z -> Category.ready_count c = 2%Z ->
       Category.ready_percentage c = Ok "67%"%string) /\
      (Category.total_count c = 8%Z -> Category.ready_count c = 1%Z ->
       Category.ready_percentage c = Ok "12%"%string) /\
      (Category.total_count c = 8%Z -> Category.ready_count c = 3%Z ->
       Category.ready_percentage c = Ok "38%"%string) /\
      (Category.total_count c = 40%Z -> Category.ready_count c = 23%Z ->
       Category.ready_percentage c = Ok "57%"%string).
Proof.
  intros c Hne Hsize.
  destruct (@percent_nearest (Category.ready_count c) (Category.total_count c))
    as (r & n & Hr & Hfmt & Hnear & Hrange);
    [apply ready_count_bounds | split; [now apply total_count_pos | exact Hsize] |].
  assert (Hres : Category.ready_percentage c = Ok (str_of_Z n ++ "%")%string).
  { unfold Category.ready_percentage. now rewrite Hr, Hfmt. }
  exists n. split; [exact Hres|]. split; [exact Hrange|]. split; [exact Hnear|].
  split; [|split; [|split]].
  - intros H3 H2. rewrite Hres. rewrite H3, H2 in Hnear.
    assert (Hn : n = 67%Z) by lia. now rewrite Hn.
  - intros Ht Hrc. unfold Category.ready_percentage. rewrite Hrc, Ht.
    vm_compute. reflexivity.
  - intros Ht Hrc. unfold Category.ready_percentage. rewrite Hrc, Ht.
    vm_compute. reflexivity.
  - intros Ht Hrc. unfold Category.ready_percentage. rewrite Hrc, Ht.
    vm_compute. reflexivity.
Qed.

(** * Instances on the sample data *)

Lemma Host_resolve_ipv6_filter_witness :
  exists h' w',
    Host.resolve sample_resolver (Host.new "mapped.example", sample_world)
    = (Ok tt, (h', w')) /\
    (Host.has_ipv6_address h' = Some true
     <-> exists a, In a ["::ffff:192.0.2.1"; "::ffff:192.0.2.2"]%string
                   /\ startswith a "::ffff:" = false) /\
    ((forall a, In a ["::ffff:192.0.2.1"; "::ffff:192.0.2.2"]%string ->
                startswith a "::ffff:" = true) ->
     Host.has_ipv6_address h' = Some false) /\
    ipv6_resolution_success (metrics w')
    = (ipv6_resolution_success (metrics sample_world) + 1)%N /\
    ipv6_resolution_failure (metrics w') = ipv6_resolution_failure (metrics sample_world).
Proof.
  exact (Host_resolve_ipv6_filter sample_resolver (Host.new "mapped.example")
                                  sample_world eq_refl).
Defined.

Lemma Category_ready_percentage_nearest_witness :
  Category.entities two_of_three <> [] /\
  (Category.total_count two_of_three <= two_pow_44)%Z /\
  exists n : Z,
    Category.ready_percentage two_of_three = Ok (str_of_Z n ++ "%")%string /\
    (0 <= n <= 100)%Z /\
    (Z.abs (2 * (n * Category.total_count two_of_three
                 - 100 * Category.ready_count two_of_three))
     <= Category.total_count two_of_three)%Z /\
    (Category.total_count two_of_three = 3%Z ->
     Category.ready_count two_of_three = 2%Z ->
     Category.ready_percentage two_of_three = Ok "67%"%string) /\
    (Category.total_count two_of_three = 8%Z ->
     Category.ready_count two_of_three = 1%Z ->
     Category.ready_percentage two_of_three = Ok "12%"%string) /\
    (Category.total_count two_of_three = 8%Z ->
     Category.ready_count two_of_three = 3%Z ->
     Category.ready_percentage two_of_three = Ok "38%"%string) /\
    (Category.total_count two_of_three = 40%Z ->
     Category.ready_count two_of_three = 23%Z ->
     Category.ready_percentage two_of_three = Ok "57%"%string).
Proof.
  assert (Hne : Category.entities two_of_three <> []) by discriminate.
  assert (Hsize : (Category.total_count two_of_three <= two_pow_44)%Z)
    by (vm_compute; discriminate).
  split; [exact Hne|]. split; [exact Hsize|].
  exact (Category_ready_percentage_nearest two_of_three Hne Hsize).
Defined.

(** Twenty-three ready entities out of forty are 57.5 percent exactly.
    Rounding the half up gives 58, and so does rounding it to the even
    neighbour; the code writes 57, because the binary64 quotient times 100
    is the float just below 57.5. *)
Lemma ready_percentage_half_counterexample :
  Category.entities twenty_three_of_forty <> [] /\
  Category.ready_count twenty_three_of_forty = 23%Z /\
  Category.total_count twenty_three_of_forty = 40%Z /\
  spec_ready_percentage twenty_three_of_forty = "58%"%string /\
  round_half_even (100 * (23 # 40)) = 58%Z /\
  Category.ready_percentage twenty_three_of_forty = Ok "57%"%string /\
  Category.ready_percentage twenty_three_of_forty
  <> Ok (spec_ready_percentage twenty_three_of_forty).
Proof.
  split; [discriminate|].
  split; [reflexivity|]. split; [reflexivity|].
  split; [vm_compute; reflexivity|].
  split; [vm_compute; reflexivity|].
  split; [vm_compute; reflexivity|].
  vm_compute. discriminate.
Qed.

(** An exact half that the code rounds down to the even neighbour, and one
    that it rounds up to the even neighbour. *)
Example ready_percentage_one_of_eight :
  Category.ready_percentage one_of_eight = Ok "12%"%string
  /\ spec_ready_percentage one_of_eight = "13%"%string.
Proof. split; vm_compute; reflexivity. Qed.

Example ready_percentage_three_of_eight :
  Category.ready_count three_of_eight = 3%Z
  /\ Category.total_count three_of_eight = 8%Z
  /\ Category.ready_percentage three_of_eight = Ok "38%"%string
  /\ spec_ready_percentage three_of_eight = "38%"%string.
Proof. repeat split; vm_compute; reflexivity. Qed.

Example ready_percentage_two_of_three :
  Category.ready_percentage two_of_three = Ok "67%"%string.
Proof. vm_compute. reflexivity. Qed.

Example ready_percentage_empty :
  Category.ready_percentage (Category.new "bank") = Raise ZeroDivisionError.
Proof. reflexivity. Qed.

(** A host whose AAAA answers are all IPv4-mapped. *)
Example resolve_mapped_host :
  Host.resolve sample_resolver (Host.new "mapped.example", sample_world)
  = (Ok tt,
     (Host.mk "mapped.example" (Some true) (Some false),
      mkWorld (mkMetrics 1 0 1 0)
              [LogDebug "mapped.example" ["::ffff:192.0.2.1"; "::ffff:192.0.2.2"]%string]
              (clock sample_world + 2)%Z)).
Proof. reflexivity. Qed.

(** A host that does not resolve at all. *)
Example resolve_unknown_host :
  Host.resolve sample_resolver (Host.new "nowhere.example", sample_world)
  = (Ok tt,
     (Host.mk "nowhere.example" (Some false) (Some false),
      mkWorld (mkMetrics 0 1 0 1)
              [LogWarning "nowhere.example IPv4 DNS record not found either"]
              (clock sample_world + 2)%Z)).
Proof. reflexivity. Qed.

(** An entity whose main host has IPv6 and whose additional host has only
    mapped addresses is not ready. *)
Example resolve_sample_entity :
  match Entity.from_json sample_json with
  | Ok e =>
      Entity.name e = "example.com"%string /\
      Entity.ipv6_ready e = None /\
      Entity.ipv6_ready (fst (snd (Entity.resolve sample_resolver (e, sample_world))))
      = Some false
  | Raise _ => False
  end.
Proof. repeat split. Qed.

(** One country, one category, one entity with "example.com" as its only
    host: after [resolve_all] the flags are definite, the entity is ready
    and [last_resolved] holds the time at which the second of the two
    answers arrived. *)
Example resolve_all_sample_source :
  Source.resolve_all sample_resolver (sample_source, sample_world)
  = (Ok tt,
     (Source.mk
        [("us"%string,
          CountryData.mk "us"
            [("bank"%string,
              Category.mk "bank"
                [Entity.mk "us" "bank" "example.com"
                   (Host.mk "example.com" (Some true) (Some true)) [] (Some true)])])]
        (Some (clock sample_world + 2)%Z),
      mkWorld (mkMetrics 1 0 1 0)
              [LogDebug "example.com"
                 ["::ffff:93.184.216.34"; "2606:2800:220:1:248:1893:25c8:1946"]%string]
              (clock sample_world + 2)%Z)).
Proof. reflexivity. Qed.

(** Two hosts whose answers arrive interleaved: A of the second, A of the
    first, AAAA of the first, AAAA of the second. *)
Example interleaved_schedule :
  let final := run_schedule sample_resolver [1; 0; 0; 1]%nat
                 (spawn [Host.new "example.com"; Host.new "v4only.example"])
                 sample_world in
  forallb returned (fst final) = true /\
  map fst (fst final)
  = [Host.mk "example.com" (Some true) (Some true);
     Host.mk "v4only.example" (Some true) (Some false)] /\
  metrics (snd final) = mkMetrics 2 0 1 1 /\
  clock (snd final) = (clock sample_world + 4)%Z.
Proof. repeat split. Qed.

(** * Category.ready_percentage: ends of the scale and order *)

(** X4. In a tree filled only by [extend_from_json] no category is empty,
    so [ready_percentage] returns a string, and does not raise
    [ZeroDivisionError], for every category of the tree. *)
Theorem ready_percentage_defined_on_built_tree :
  forall (batches : list (list Entity.json)),
    Forall (fun c => (0 < Category.total_count c)%Z
                     /\ exists text, Category.ready_percentage c = Ok text)
           (all_categories (run_calls (map ExtendFromJson batches) Source.new)).
Proof.
  intros batches.
  pose proof (source_wf_categories
                (run_extend_calls_wf batches Source_new_wf)) as Hne.
  eapply Forall_impl; [|exact Hne]. intros c Hc.
  pose proof (total_count_pos c Hc) as Hpos. split; [exact Hpos|].
  unfold Category.ready_percentage.
  destruct (@truediv_ratio (Category.ready_count c) (Category.total_count c))
    as (r & Hr & _); [apply ready_count_bounds | exact Hpos |].
  rewrite Hr. eexists; reflexivity.
Qed.

Lemma round_half_even_exact (x : Q) (z : Z) :
  x == inject_Z z -> round_half_even x = z.
Proof.
  intros Hx. unfold round_half_even.
  assert (Hf : Qfloor x = z) by (rewrite Hx; apply Qfloor_Z).
  rewrite Hf.
  assert (Hlt : x - inject_Z z < 1 # 2) by (rewrite Hx; lra).
  destruct (Qcompare_spec (x - inject_Z z) (1 # 2)) as [He|_|Hgt];
    [rewrite He in Hlt; discriminate | reflexivity |].
  exfalso. apply (Qlt_irrefl (1 # 2)). eapply Qlt_trans; eassumption.
Qed.

Lemma ilog2_unique (x : Q) (k : Z) :
  pow2 k <= x -> x < pow2 (k + 1) -> ilog2 x = k.
Proof.
  intros Hlo Hhi.
  assert (H0 : 0 < x) by (eapply Qlt_le_trans; [apply (pow2_pos k) | exact Hlo]).
  destruct (ilog2_spec H0) as [Hlo' Hhi'].
  assert (H1 : pow2 (ilog2 x) < pow2 (k + 1)) by (eapply Qle_lt_trans; eassumption).
  assert (H2 : pow2 k < pow2 (ilog2 x + 1)) by (eapply Qle_lt_trans; eassumption).
  apply pow2_lt_inv in H1, H2. lia.
Qed.

(** A value that has a binary64 representation is its own nearest. *)
Lemma b64_nearest_pos_exact (x : Q) (k m : Z) :
  pow2 k <= x -> x < pow2 (k + 1) -> (-1022 <= k)%Z ->
  x == inject_Z m * pow2 (k - 52) ->
  b64_nearest_pos x == x.
Proof.
  intros Hlo Hhi Hk Hm. unfold b64_nearest_pos.
  rewrite (@ilog2_unique x k Hlo Hhi), Z.max_l by lia.
  pose proof (pow2_pos (k - 52)) as HP.
  assert (Hq : x / pow2 (k - 52) == inject_Z m).
  { rewrite Hm. field. intros H0. rewrite H0 in HP. discriminate. }
  rewrite (@round_half_even_exact _ m Hq). symmetry. exact Hm.
Qed.

Lemma b64_nearest_one (x : Q) : x == 1 -> b64_nearest x == 1.
Proof.
  intros Hx. rewrite b64_nearest_nonneg_spec by (rewrite Hx; reflexivity).
  rewrite (@b64_nearest_pos_exact x 0 4503599627370496); try exact Hx.
  - rewrite Hx. discriminate.
  - rewrite Hx. reflexivity.
  - lia.
  - rewrite Hx. reflexivity.
Qed.

Lemma b64_nearest_hundred (x : Q) : x == 100 -> b64_nearest x == 100.
Proof.
  intros Hx. rewrite b64_nearest_nonneg_spec by (rewrite Hx; reflexivity).
  rewrite (@b64_nearest_pos_exact x 6 7036874417766400); try exact Hx.
  - rewrite Hx. discriminate.
  - rewrite Hx. reflexivity.
  - lia.
  - rewrite Hx. reflexivity.
Qed.

Lemma format_percent0_one (r : Q) : r == 1 -> format_percent0 r = "100%"%string.
Proof.
  intros Hr. unfold format_percent0.
  assert (Hv : b64_nearest (r * 100) == 100)
    by (apply b64_nearest_hundred; rewrite Hr; reflexivity).
  rewrite below_overflow by (rewrite Hv; discriminate).
  rewrite above_neg_overflow by (rewrite Hv; discriminate).
  assert (Hgt : 0 < b64_nearest (r * 100)) by (rewrite Hv; reflexivity).
  destruct (Qcompare_spec (b64_nearest (r * 100)) 0) as [He|Hlt|_];
    [rewrite He in Hgt; discriminate
    | exfalso; apply (Qlt_irrefl 0); eapply Qlt_trans; eassumption |].
  now rewrite (@round_half_even_exact (b64_nearest (r * 100)) 100 Hv).
Qed.

(** X12. The two ends of the scale are exact, whatever the size of the
    category: a category with at least one entity and none ready reports
    "0%", and one whose entities are all ready reports "100%". *)
Theorem ready_percentage_none_and_all :
  forall (c : Category.t),
    Category.entities c <> [] ->
    (Category.ready_count c = 0%Z ->
     Category.ready_percentage c = Ok "0%"%string) /\
    (Category.ready_count c = Category.total_count c ->
     Category.ready_percentage c = Ok "100%"%string).
Proof.
  intros c Hne. pose proof (total_count_pos c Hne) as Hpos.
  unfold Category.ready_percentage. split; intros Hrc; rewrite Hrc.
  - destruct (@truediv_ratio 0 (Category.total_count c)) as (r & Hr & Hr0);
      [lia | exact Hpos |].
    rewrite b64_nearest_zero in Hr0 by (unfold Qdiv; ring). subst r.
    rewrite Hr. reflexivity.
  - destruct (@truediv_ratio (Category.total_count c) (Category.total_count c))
      as (r & Hr & Hr1); [lia | exact Hpos |].
    rewrite Hr. f_equal. apply format_percent0_one. rewrite Hr1.
    apply b64_nearest_one. field.
    intros H0. assert (Hp : inject_Z 0 < inject_Z (Category.total_count c))
      by (rewrite <- Zlt_Qlt; exact Hpos).
    rewrite H0 in Hp. discriminate.
Qed.

(** Rounding keeps the order. *)
Lemma round_half_even_floor (x : Q) :
  (Qfloor x <= round_half_even x <= Qfloor x + 1)%Z.
Proof.
  unfold round_half_even.
  destruct (Qcompare (x - inject_Z (Qfloor x)) (1 # 2)); [|lia|lia].
  destruct (Z.even (Qfloor x)); lia.
Qed.

Lemma round_half_even_mono (x y : Q) :
  x <= y -> (round_half_even x <= round_half_even y)%Z.
Proof.
  intros Hxy. pose proof (Qfloor_resp_le _ _ Hxy) as Hf.
  pose proof (round_half_even_floor x) as Hx.
  pose proof (round_half_even_floor y) as Hy.
  destruct (Z.eq_dec (Qfloor x) (Qfloor y)) as [Heq|Hne]; [|lia].
  unfold round_half_even in *. rewrite <- Heq in *.
  destruct (Qcompare_spec (x - inject_Z (Qfloor x)) (1 # 2)) as [Ex|Lx|Gx];
    destruct (Qcompare_spec (y - inject_Z (Qfloor x)) (1 # 2)) as [Ey|Ly|Gy];
    try lia; try (destruct (Z.even (Qfloor x)); lia); exfalso; lra.
Qed.

Lemma ilog2_mono (x y : Q) : 0 < x -> x <= y -> (ilog2 x <= ilog2 y)%Z.
Proof.
  intros Hx Hxy.
  assert (Hy : 0 < y) by (eapply Qlt_le_trans; eassumption).
  destruct (ilog2_spec Hx) as [Hlo _]. destruct (ilog2_spec Hy) as [_ Hhi].
  assert (Hlt : pow2 (ilog2 x) < pow2 (ilog2 y + 1)).
  { eapply Qle_lt_trans; [exact Hlo|]. eapply Qle_lt_trans; eassumption. }
  apply pow2_lt_inv in Hlt. lia.
Qed.

Lemma pow2_div (a b : Z) : pow2 a / pow2 b == pow2 (a - b).
Proof.
  pose proof (pow2_pos b) as Hb.
  replace a with ((a - b) + b)%Z at 1 by lia. rewrite pow2_add.
  field. intros H0. rewrite H0 in Hb. discriminate.
Qed.

Lemma div_pow2_le (x y : Q) (e : Z) : x <= y -> x / pow2 e <= y / pow2 e.
Proof.
  intros Hxy. pose proof (pow2_pos e) as He.
  unfold Qdiv. apply Qmult_le_compat_r; [exact Hxy|].
  apply Qlt_le_weak, Qinv_lt_0_compat, He.
Qed.

Lemma b64_nearest_pos_mono (x y : Q) :
  0 < x -> x <= y -> b64_nearest_pos x <= b64_nearest_pos y.
Proof.
  intros Hx Hxy.
  assert (Hy : 0 < y) by (eapply Qlt_le_trans; eassumption).
  pose proof (ilog2_mono Hx Hxy) as Hk.
  destruct (ilog2_spec Hx) as [_ Hxhi]. destruct (ilog2_spec Hy) as [Hylo _].
  unfold b64_nearest_pos.
  set (ex := Z.max (ilog2 x - 52) (-1074)). set (ey := Z.max (ilog2 y - 52) (-1074)).
  destruct (Z.eq_dec ex ey) as [Heq|Hne].
  - rewrite <- Heq. apply Qmult_le_compat_r; [|apply Qlt_le_weak, pow2_pos].
    rewrite <- Zle_Qle. apply round_half_even_mono. now apply div_pow2_le.
  - assert (Hlt : (ex < ey)%Z) by (unfold ex, ey in *; lia).
    assert (Hey : ey = (ilog2 y - 52)%Z) by (unfold ex, ey in *; lia).
    assert (Hkk : (ilog2 x + 1 <= ilog2 y)%Z) by (unfold ex, ey in *; lia).
    apply Qle_trans with (pow2 (ilog2 y)).
    + assert (Hd : x / pow2 ex <= inject_Z (2 ^ (ilog2 y - ex))).
      { rewrite pow2_inject by lia. rewrite <- pow2_div. apply div_pow2_le.
        apply Qle_trans with (pow2 (ilog2 x + 1)); [now apply Qlt_le_weak|].
        now apply pow2_le_mono. }
      apply round_half_even_mono in Hd.
      rewrite (@round_half_even_exact (inject_Z (2 ^ (ilog2 y - ex)))
                 (2 ^ (ilog2 y - ex))) in Hd by reflexivity.
      rewrite Zle_Qle in Hd.
      apply (Qmult_le_compat_r _ _ (pow2 ex)) in Hd; [|apply Qlt_le_weak, pow2_pos].
      eapply Qle_trans; [exact Hd|].
      rewrite pow2_inject by lia. rewrite <- pow2_add.
      replace (ilog2 y - ex + ex)%Z with (ilog2 y) by lia. apply Qle_refl.
    + assert (Hd : inject_Z (2 ^ 52) <= y / pow2 ey).
      { rewrite pow2_inject by lia. rewrite Hey.
        replace 52%Z with (ilog2 y - (ilog2 y - 52))%Z at 1 by lia.
        rewrite <- pow2_div. now apply div_pow2_le. }
      apply round_half_even_mono in Hd.
      rewrite (@round_half_even_exact (inject_Z (2 ^ 52)) (2 ^ 52)) in Hd
        by reflexivity.
      rewrite Zle_Qle in Hd.
      apply (Qmult_le_compat_r _ _ (pow2 ey)) in Hd; [|apply Qlt_le_weak, pow2_pos].
      eapply Qle_trans; [|exact Hd].
      rewrite pow2_inject by lia. rewrite <- pow2_add.
      replace (52 + ey)%Z with (ilog2 y) by lia. apply Qle_refl.
Qed.

Lemma b64_nearest_pos_nonneg (x : Q) : 0 < x -> 0 <= b64_nearest_pos x.
Proof.
  intros Hx. unfold b64_nearest_pos.
  set (e := Z.max (ilog2 x - 52) (-1074)).
  apply Qmult_le_0_compat; [|apply Qlt_le_weak, pow2_pos].
  change 0 with (inject_Z 0). rewrite <- Zle_Qle.
  rewrite <- (@round_half_even_exact (inject_Z 0) 0) by reflexivity.
  apply round_half_even_mono. change (inject_Z 0) with 0.
  apply Qle_shift_div_l; [apply pow2_pos|]. lra.
Qed.

(** Rounding to binary64 keeps the order of non-negative values. *)
Lemma b64_nearest_mono (x y : Q) :
  0 <= x -> x <= y -> 0 <= b64_nearest x /\ b64_nearest x <= b64_nearest y.
Proof.
  intros Hx Hxy. unfold b64_nearest.
  destruct (Qcompare_spec x 0) as [Ex|Lx|Gx]; [|exfalso; lra|].
  - destruct (Qcompare_spec y 0) as [Ey|Ly|Gy]; [split; apply Qle_refl|exfalso; lra|].
    split; [apply Qle_refl | now apply b64_nearest_pos_nonneg].
  - destruct (Qcompare_spec y 0) as [Ey|Ly|Gy]; [exfalso; lra|exfalso; lra|].
    split; [now apply b64_nearest_pos_nonneg | now apply b64_nearest_pos_mono].
Qed.


Lemma percent_of_mono (q1 q2 : Q) :
  0 <= q1 -> q1 <= q2 -> (percent_of q1 <= percent_of q2)%Z.
Proof.
  intros H0 H12. unfold percent_of.
  destruct (b64_nearest_mono H0 H12) as [Hr0 Hr].
  apply round_half_even_mono.
  apply b64_nearest_mono; [|apply Qmult_le_compat_r; [exact Hr | discriminate]].
  apply Qmult_le_0_compat; [exact Hr0 | discriminate].
Qed.

Lemma percent_of_range (q : Q) : 0 <= q -> q <= 1 -> (0 <= percent_of q <= 100)%Z.
Proof.
  intros H0 H1.
  assert (Hzero : percent_of 0 = 0%Z) by reflexivity.
  assert (Hone : percent_of 1 = 100%Z).
  { unfold percent_of. apply round_half_even_exact.
    apply b64_nearest_hundred.
    rewrite (b64_nearest_one (x := 1)) by reflexivity. reflexivity. }
  split.
  - rewrite <- Hzero. apply percent_of_mono; [apply Qle_refl | exact H0].
  - rewrite <- Hone. now apply percent_of_mono.
Qed.

Lemma percent_written (a b : Z) :
  (0 <= a <= b)%Z -> (0 < b)%Z ->
  exists r,
    truediv a b = Ok r /\
    format_percent0 r
    = (str_of_Z (percent_of (inject_Z a / inject_Z b)) ++ "%")%string.
Proof.
  intros Ha Hb.
  destruct (@truediv_ratio a b Ha Hb) as (r & Hr & ->).
  exists (b64_nearest (inject_Z a / inject_Z b)). split; [exact Hr|].
  destruct (ratio_bounds Ha Hb) as [Hq0 Hq1].
  destruct (b64_nearest_mono Hq0 Hq1) as [Hr0 Hr1].
  rewrite (b64_nearest_one (x := 1)) in Hr1 by reflexivity.
  set (r := b64_nearest (inject_Z a / inject_Z b)) in *.
  assert (Hp0 : 0 <= r * 100) by (apply Qmult_le_0_compat; [exact Hr0 | discriminate]).
  assert (Hp1 : r * 100 <= 100).
  { apply Qle_trans with (1 * 100); [|discriminate].
    apply Qmult_le_compat_r; [exact Hr1 | discriminate]. }
  destruct (b64_nearest_mono Hp0 Hp1) as [Hv0 Hv1].
  rewrite (b64_nearest_hundred (x := 100)) in Hv1 by reflexivity.
  unfold format_percent0, percent_of. fold r.
  generalize dependent (b64_nearest (r * 100)). intros v Hv0 Hv1.
  rewrite below_overflow by (eapply Qle_trans; [exact Hv1 | discriminate]).
  rewrite above_neg_overflow by exact Hv0.
  destruct (Qcompare_spec v 0) as [_|Hlt|_]; [reflexivity | | reflexivity].
  exfalso. apply (Qlt_irrefl v). eapply Qlt_le_trans; eassumption.
Qed.

Lemma ratio_le (a1 b1 a2 b2 : Z) :
  (0 < b1)%Z -> (0 < b2)%Z -> (a1 * b2 <= a2 * b1)%Z ->
  inject_Z a1 / inject_Z b1 <= inject_Z a2 / inject_Z b2.
Proof.
  intros Hb1 Hb2 Hc.
  assert (HB1 : 0 < inject_Z b1)
    by (change 0 with (inject_Z 0); rewrite <- Zlt_Qlt; exact Hb1).
  assert (HB2 : 0 < inject_Z b2)
    by (change 0 with (inject_Z 0); rewrite <- Zlt_Qlt; exact Hb2).
  apply Qle_shift_div_l; [exact HB2|].
  assert (He : inject_Z a1 / inject_Z b1 * inject_Z b2
               == inject_Z (a1 * b2) / inject_Z b1).
  { rewrite inject_Z_mult. field. intros H0. rewrite H0 in HB1. discriminate. }
  rewrite He. apply Qle_shift_div_r; [exact HB1|].
  rewrite <- inject_Z_mult, <- Zle_Qle. exact Hc.
Qed.

(** X18. [ready_percentage] is monotone in the ratio, for categories of any
    size: the text is a whole number between 0 and 100 followed by a percent
    sign, and of two categories the one with the larger share of ready
    entities never gets the smaller number. *)
Theorem ready_percentage_monotone :
  forall (c1 c2 : Category.t),
    Category.entities c1 <> [] ->
    Category.entities c2 <> [] ->
    (Category.ready_count c1 * Category.total_count c2
     <= Category.ready_count c2 * Category.total_count c1)%Z ->
    exists n1 n2 : Z,
      Category.ready_percentage c1 = Ok (str_of_Z n1 ++ "%")%string /\
      Category.ready_percentage c2 = Ok (str_of_Z n2 ++ "%")%string /\
      (0 <= n1 <= n2)%Z /\ (n2 <= 100)%Z.
Proof.
  intros c1 c2 Hne1 Hne2 Hle.
  pose proof (total_count_pos c1 Hne1) as Hp1.
  pose proof (total_count_pos c2 Hne2) as Hp2.
  pose proof (ready_count_bounds c1) as Hb1.
  pose proof (ready_count_bounds c2) as Hb2.
  destruct (percent_written Hb1 Hp1) as (r1 & Hr1 & Hf1).
  destruct (percent_written Hb2 Hp2) as (r2 & Hr2 & Hf2).
  destruct (ratio_bounds Hb1 Hp1) as [Hq1lo Hq1hi].
  destruct (ratio_bounds Hb2 Hp2) as [Hq2lo Hq2hi].
  exists (percent_of (inject_Z (Category.ready_count c1)
                      / inject_Z (Category.total_count c1))),
    (percent_of (inject_Z (Category.ready_count c2)
                 / inject_Z (Category.total_count c2))).
  unfold Category.ready_percentage. rewrite Hr1, Hr2, Hf1, Hf2.
  split; [reflexivity|]. split; [reflexivity|].
  pose proof (percent_of_range Hq1lo Hq1hi) as Hn1.
  pose proof (percent_of_range Hq2lo Hq2hi) as Hn2.
  pose proof (percent_of_mono Hq1lo (ratio_le _ _ Hp1 Hp2 Hle)) as Hm.
  lia.
Qed.

(** * Further instances on the sample data *)

Lemma extend_from_json_stops_at_first_malformed_witness :
  forallb json_well_formed [sample_json] = true /\
  json_well_formed sample_bad_json = false /\
  exists key es,
    In key ["main_host"; "country"; "category"]%string /\
    map Entity.from_json [sample_json] = map Ok es /\
    Source.extend_from_json ([sample_json] ++ sample_bad_json :: [sample_json])
                            Source.new
    = (Raise (KeyError key), register_all es Source.new) /\
    forall country category,
      Source.entities_at country category
        (snd (Source.extend_from_json
                ([sample_json] ++ sample_bad_json :: [sample_json]) Source.new))
      = Source.entities_at country category Source.new
        ++ filter (registered_at country category) es.
Proof.
  split; [reflexivity|]. split; [reflexivity|].
  exact (extend_from_json_stops_at_first_malformed
           [sample_json] sample_bad_json [sample_json] Source.new eq_refl eq_refl).
Defined.

Lemma readiness_ignores_ipv4_witness :
  (forall name,
      lookup sample_resolver name AAAA
      = lookup (without_ipv4 sample_resolver) name AAAA) /\
  exists s1 s2 w1' w2',
    Source.resolve_all sample_resolver (sample_source_two, sample_world)
    = (Ok tt, (s1, w1')) /\
    Source.resolve_all (without_ipv4 sample_resolver) (sample_source_two, sample_world)
    = (Ok tt, (s2, w2')) /\
    map Entity.ipv6_ready (Source.all_entities s1)
    = map Entity.ipv6_ready (Source.all_entities s2).
Proof.
  split; [intros name; reflexivity|].
  exact (readiness_ignores_ipv4 sample_resolver (without_ipv4 sample_resolver)
           sample_source_two sample_world sample_world (fun name => eq_refl)).
Defined.

Lemma ready_percentage_none_and_all_witness :
  Category.entities all_ready <> [] /\
  (Category.ready_count all_ready = 0%Z ->
   Category.ready_percentage all_ready = Ok "0%"%string) /\
  (Category.ready_count all_ready = Category.total_count all_ready ->
   Category.ready_percentage all_ready = Ok "100%"%string).
Proof.
  assert (Hne : Category.entities all_ready <> []) by discriminate.
  split; [exact Hne|].
  exact (ready_percentage_none_and_all all_ready Hne).
Defined.

Lemma Source_as_json_layout_witness :
  keys_unique sample_source_two /\
  (Source_as_json (fun _ => EmptyString) sample_source_two
   = (fun _ => EmptyString)
       (JObject
          (map (fun kv =>
                  (fst kv,
                   JObject
                     (map (fun kc => (fst kc, Category_as_json (snd kc)))
                          (CountryData.categories (snd kv)))))
               (Source.countries_data sample_source_two))) /\
   forall country category,
     match json_get country (Source_as_dict sample_source_two) with
     | Some report =>
         dict_contains country (Source.countries_data sample_source_two) = true /\
         match json_get category report with
         | Some entities =>
             entities
             = JArray (map Entity_as_dict
                           (Source.entities_at country category sample_source_two))
         | None => Source.entities_at country category sample_source_two = []
         end
     | None => dict_contains country (Source.countries_data sample_source_two) = false
     end).
Proof.
  assert (Hu : keys_unique sample_source_two).
  { split; simpl.
    - constructor; [intros [] | constructor].
    - constructor; [|constructor]. simpl. constructor; [intros [] | constructor]. }
  split; [exact Hu|].
  exact (@Source_as_json_layout (fun _ => EmptyString) sample_source_two Hu).
Defined.

Lemma resolve_all_schedule_independent_witness :
  forallb returned
    (fst (run_schedule sample_resolver [1; 0; 1; 0]%nat
            (spawn (all_hosts sample_source_two)) sample_world)) = true /\
  exists s1 w1,
    Source.resolve_entities sample_resolver (sample_source_two, sample_world)
    = (Ok tt, (s1, w1)) /\
    map fst (fst (run_schedule sample_resolver [1; 0; 1; 0]%nat
                    (spawn (all_hosts sample_source_two)) sample_world))
    = all_hosts s1 /\
    metrics (snd (run_schedule sample_resolver [1; 0; 1; 0]%nat
                    (spawn (all_hosts sample_source_two)) sample_world))
    = metrics w1.
Proof.
  split; [reflexivity|].
  exact (resolve_all_schedule_independent sample_resolver sample_source_two
           sample_world [1; 0; 1; 0]%nat eq_refl).
Defined.

Lemma ready_percentage_monotone_witness :
  Category.entities one_of_eight <> [] /\
  Category.entities two_of_three <> [] /\
  (Category.ready_count one_of_eight * Category.total_count two_of_three
   <= Category.ready_count two_of_three * Category.total_count one_of_eight)%Z /\
  exists n1 n2 : Z,
    Category.ready_percentage one_of_eight = Ok (str_of_Z n1 ++ "%")%string /\
    Category.ready_percentage two_of_three = Ok (str_of_Z n2 ++ "%")%string /\
    (0 <= n1 <= n2)%Z /\ (n2 <= 100)%Z.
Proof.
  assert (H1 : Category.entities one_of_eight <> []) by discriminate.
  assert (H2 : Category.entities two_of_three <> []) by discriminate.
  assert (H3 : (Category.ready_count one_of_eight * Category.total_count two_of_three
                <= Category.ready_count two_of_three
                   * Category.total_count one_of_eight)%Z)
    by (vm_compute; discriminate).
  split; [exact H1|]. split; [exact H2|]. split; [exact H3|].
  exact (@ready_percentage_monotone one_of_eight two_of_three H1 H2 H3).
Defined.
